(** * AetherLoom: the flow store and its connection validator

    Shallow embedding of [frontend/src/store/useFlowStore.ts] (the zustand
    flow store, [checkForCycles], [isValidConnection]), of the Text Input
    and Text Join node components, and of the React Flow helpers they call
    ([getOutgoers], [addEdge]). *)

From Stdlib Require Import List String Ascii Bool Arith Lia ZArith QArith.
From Stdlib Require Import Relations.Relation_Operators Relations.Operators_Properties.
Import ListNotations.
Open Scope nat_scope.
Open Scope string_scope.
Set Warnings "-register-all".

(** ** JavaScript values kept in node data *)

(** The values a node's [data] object holds. Numbers are the integral
    numbers the configuration uses ([max_length]). An object is the list of
    its own properties in insertion order. *)
Inductive JsValue : Type :=
| JUndefined
| JNull
| JBool (b : bool)
| JNum (n : Z)
| JStr (s : string)
| JObj (props : list (string * JsValue)).

Definition JsObject := list (string * JsValue).

(** [o[k]] on an object: [undefined] when the property is absent. *)
Fixpoint get_prop (o : JsObject) (k : string) : JsValue :=
  match o with
  | [] => JUndefined
  | (k', v) :: o' => if String.eqb k k' then v else get_prop o' k
  end.

(** Assignment [o[k] = v]: an existing property keeps its place, a new one
    is appended. *)
Fixpoint set_prop (o : JsObject) (k : string) (v : JsValue) : JsObject :=
  match o with
  | [] => [(k, v)]
  | (k', v') :: o' =>
      if String.eqb k k' then (k', v) :: o' else (k', v') :: set_prop o' k v
  end.

(** Object spread [{ ...o, ...p }]: the properties of [p] are assigned, in
    order, onto a copy of [o]. *)
Definition spread (o p : JsObject) : JsObject :=
  fold_left (fun acc kv => set_prop acc (fst kv) (snd kv)) p o.

(** ** Graph model (React Flow's [Node], [Edge], [Connection]) *)

Module Node.
Record t : Type := mk {
  id : string;
  type : string;
  data : JsObject
}.
End Node.

(** An edge's handle ids are [string | null]: the edges of the store come
    from connections, through [addEdge]. React Flow's [Edge] type also allows
    an [undefined] handle, which an edge handed to [setEdges] may carry; such
    edges are outside this model, so statements that rely on the handles are
    made about the states the canvas reaches from the empty store. *)
Module Edge.
Record t : Type := mk {
  id : string;
  source : string;
  target : string;
  sourceHandle : option string;
  targetHandle : option string
}.
End Edge.

(** A handle id is [string | null]: [None] is [null]. *)
Module Connection.
Record t : Type := mk {
  source : string;
  target : string;
  sourceHandle : option string;
  targetHandle : option string
}.
End Connection.

(** Strict equality [===] on [string | null]. *)
Definition handle_eqb (h1 h2 : option string) : bool :=
  match h1, h2 with
  | None, None => true
  | Some a, Some b => String.eqb a b
  | _, _ => false
  end.

(** ** React Flow helpers *)

(** [getOutgoers(node, nodes, edges)]:
    [const outgoerIds = edges.filter(e => e.source === node.id).map(e => e.target);
     return nodes.filter(n => outgoerIds.includes(n.id));] *)
Definition getOutgoers (node : Node.t) (nodes : list Node.t) (edges : list Edge.t)
  : list Node.t :=
  let outgoerIds :=
    map Edge.target (filter (fun e => String.eqb (Edge.source e) (Node.id node)) edges) in
  filter (fun n => existsb (String.eqb (Node.id n)) outgoerIds) nodes.

(** [!h] on a handle: [null] and the empty string are falsy. *)
Definition falsy_handle (h : option string) : bool :=
  match h with
  | None => true
  | Some s => String.eqb s ""
  end.

(** [connectionExists(edge, edges)]. *)
Definition connectionExists (e : Edge.t) (edges : list Edge.t) : bool :=
  existsb (fun el =>
    String.eqb (Edge.source el) (Edge.source e)
    && String.eqb (Edge.target el) (Edge.target e)
    && (handle_eqb (Edge.sourceHandle el) (Edge.sourceHandle e)
        || (falsy_handle (Edge.sourceHandle el) && falsy_handle (Edge.sourceHandle e)))
    && (handle_eqb (Edge.targetHandle el) (Edge.targetHandle e)
        || (falsy_handle (Edge.targetHandle el) && falsy_handle (Edge.targetHandle e))))
    edges.

Definition handle_or_empty (h : option string) : string :=
  match h with None => "" | Some s => s end.

(** [getEdgeId]: [`reactflow__edge-${source}${sourceHandle || ''}-${target}${targetHandle || ''}`]. *)
Definition getEdgeId (c : Connection.t) : string :=
  "reactflow__edge-" ++ Connection.source c ++ handle_or_empty (Connection.sourceHandle c)
  ++ "-" ++ Connection.target c ++ handle_or_empty (Connection.targetHandle c).

(** [addEdge(connection, edges)]: nothing is added when an endpoint is
    falsy or the same connection already exists; otherwise the edge is
    appended. *)
Definition addEdge (c : Connection.t) (edges : list Edge.t) : list Edge.t :=
  if String.eqb (Connection.source c) "" || String.eqb (Connection.target c) ""
  then edges
  else
    let edge := Edge.mk (getEdgeId c) (Connection.source c) (Connection.target c)
                        (Connection.sourceHandle c) (Connection.targetHandle c) in
    if connectionExists edge edges then edges else edges ++ [edge].

(** ** The validator ([useFlowStore.ts], lines 71-125) *)

(** [arr.some(f)] where [f] may fail to return (unbounded recursion):
    [None] is a call that does not return. *)
Fixpoint some_opt {A : Type} (f : A -> option bool) (l : list A) : option bool :=
  match l with
  | [] => Some false
  | x :: l' =>
      match f x with
      | Some true => Some true
      | Some false => some_opt f l'
      | None => None
      end
  end.

(** [checkForCycles(target, source, nodes, edges)], a recursion with no
    visited set. [fuel] bounds the recursion depth; [None] is a call that
    has not returned within that depth. *)
Fixpoint checkForCycles (fuel : nat) (target source : Node.t)
    (nodes : list Node.t) (edges : list Edge.t) : option bool :=
  match fuel with
  | O => None
  | S fuel' =>
      let outgoers := getOutgoers target nodes edges in
      if existsb (fun outgoer => String.eqb (Node.id outgoer) (Node.id source)) outgoers
      then Some true
      else some_opt (fun outgoer => checkForCycles fuel' outgoer source nodes edges) outgoers
  end.

(** [isValidConnection(connection, nodes, edges)], with the recursion depth
    of its [checkForCycles] call bounded by [fuel]. *)
Definition isValidConnection (fuel : nat) (connection : Connection.t)
    (nodes : list Node.t) (edges : list Edge.t) : option bool :=
  let source := Connection.source connection in
  let target := Connection.target connection in
  if String.eqb source target then Some false
  else
    let hasExistingInputConnection :=
      existsb (fun edge => String.eqb (Edge.target edge) target
                           && handle_eqb (Edge.targetHandle edge) (Connection.targetHandle connection))
              edges in
    if hasExistingInputConnection then Some false
    else
      let sourceNode := find (fun n => String.eqb (Node.id n) source) nodes in
      let targetNode := find (fun n => String.eqb (Node.id n) target) nodes in
      match sourceNode, targetNode with
      | Some sn, Some tn =>
          match checkForCycles fuel tn sn nodes edges with
          | Some true => Some false
          | Some false => Some true
          | None => None
          end
      | _, _ => Some false
      end.

(** The JavaScript functions, whose recursion is unbounded: they return [b]
    when some recursion depth suffices to return [b]. *)
Definition checkForCycles_returns (target source : Node.t) (nodes : list Node.t)
    (edges : list Edge.t) (b : bool) : Prop :=
  exists fuel, checkForCycles fuel target source nodes edges = Some b.

Definition isValidConnection_returns (connection : Connection.t) (nodes : list Node.t)
    (edges : list Edge.t) (b : bool) : Prop :=
  exists fuel, isValidConnection fuel connection nodes edges = Some b.

(** ** The zustand store ([useFlowStore.ts], lines 16-62) *)

Record FlowState : Type := mkFlowState {
  nodes : list Node.t;
  edges : list Edge.t
}.

(** [onConnect: (connection) => set({ edges: addEdge(connection, get().edges) })] *)
Definition onConnect (connection : Connection.t) (st : FlowState) : FlowState :=
  mkFlowState (nodes st) (addEdge connection (edges st)).

Definition setNodes (ns : list Node.t) (st : FlowState) : FlowState :=
  mkFlowState ns (edges st).

Definition setEdges (es : list Edge.t) (st : FlowState) : FlowState :=
  mkFlowState (nodes st) es.

Definition addNode (node : Node.t) (st : FlowState) : FlowState :=
  mkFlowState (nodes st ++ [node]) (edges st).

(** [updateNodeData(id, data)]:
    [nodes.map(node => node.id === id ? { ...node, data: { ...node.data, ...data } } : node)] *)
Definition updateNodeData (id : string) (data : JsObject) (st : FlowState) : FlowState :=
  mkFlowState
    (map (fun node =>
            if String.eqb (Node.id node) id
            then Node.mk (Node.id node) (Node.type node) (spread (Node.data node) data)
            else node)
         (nodes st))
    (edges st).

(** ** Reachability and the structural invariants *)

Definition node_ids (ns : list Node.t) : list string := map Node.id ns.

(** One step of [getOutgoers]: an edge [x -> y] whose target [y] is a node
    of the list. *)
Definition outgoer_step (ns : list Node.t) (es : list Edge.t) (x y : string) : Prop :=
  exists e, In e es /\ Edge.source e = x /\ Edge.target e = y /\ In y (node_ids ns).

Definition reachable_in (ns : list Node.t) (es : list Edge.t) : string -> string -> Prop :=
  clos_trans string (outgoer_step ns es).

(** One step along an edge of the list. *)
Definition edge_step (es : list Edge.t) (x y : string) : Prop :=
  exists e, In e es /\ Edge.source e = x /\ Edge.target e = y.

Definition reachable (es : list Edge.t) : string -> string -> Prop :=
  clos_trans string (edge_step es).

Definition acyclic (es : list Edge.t) : Prop :=
  forall x, ~ reachable es x x.

(** Invariant 1: every edge's endpoints are nodes of the graph. *)
Definition endpoints_present (ns : list Node.t) (es : list Edge.t) : Prop :=
  forall e, In e es -> In (Edge.source e) (node_ids ns) /\ In (Edge.target e) (node_ids ns).

Definition no_self_loop (es : list Edge.t) : Prop :=
  forall e, In e es -> Edge.source e <> Edge.target e.

(** Invariant 2: at most one edge per (target node, target handle). *)
Definition single_writer (es : list Edge.t) : Prop :=
  NoDup (map (fun e => (Edge.target e, Edge.targetHandle e)) es).

Definition graph_invariants (ns : list Node.t) (es : list Edge.t) : Prop :=
  endpoints_present ns es /\ no_self_loop es /\ single_writer es /\ acyclic es.

(** The target handle ids a node type declares. [page.tsx] renders
    [display_result] nodes with [OutputNode], whose one target [<Handle>]
    (OutputNode.tsx, lines 21-25) has no [id], that is [null]. The
    components of the other types are not in [src/]: their handle sets are
    left unknown ([None]). *)
Definition declared_target_handles (type : string) : option (list (option string)) :=
  if String.eqb type "display_result" then Some [None] else None.

(** Invariant 4, for the target side: an edge into a node of a type with a
    known handle set uses one of the handle ids that type declares. *)
Definition handles_declared (ns : list Node.t) (es : list Edge.t) : Prop :=
  forall e n hs, In e es -> In n ns -> Node.id n = Edge.target e ->
    declared_target_handles (Node.type n) = Some hs -> In (Edge.targetHandle e) hs.

(** The rejection conditions of the validator, as the code checks them. *)
Definition rejected (c : Connection.t) (ns : list Node.t) (es : list Edge.t) : Prop :=
  Connection.source c = Connection.target c
  \/ (exists e, In e es /\ Edge.target e = Connection.target c
                /\ Edge.targetHandle e = Connection.targetHandle c)
  \/ ~ In (Connection.source c) (node_ids ns)
  \/ ~ In (Connection.target c) (node_ids ns)
  \/ reachable_in ns es (Connection.target c) (Connection.source c).

(** A walk [x -> p1 -> p2 -> ...] along [R]. *)
Fixpoint walk (R : string -> string -> Prop) (x : string) (p : list string) : Prop :=
  match p with
  | [] => True
  | y :: p' => R x y /\ walk R y p'
  end.

(** A ranking of the node ids that every edge increases: a certificate of
    acyclicity. *)
Definition ranked_by (rank : string -> nat) (es : list Edge.t) : bool :=
  forallb (fun e => Nat.ltb (rank (Edge.source e)) (rank (Edge.target e))) es.

(** ** Editing: React Flow's connection gate as [app/page.tsx] wires it *)

(** [<ReactFlow onConnect={onConnect} isValidConnection={c => isValidConnection(c, nodes, edges)}>]:
    a proposed connection is committed through [onConnect] only when the
    validator accepts it on the current nodes and edges. *)
Definition connectAttempt (fuel : nat) (c : Connection.t) (st : FlowState) : FlowState :=
  match isValidConnection fuel c (nodes st) (edges st) with
  | Some true => onConnect c st
  | _ => st
  end.

(** An editing step: a node dropped on the canvas ([addNode]) or a
    connection the validator accepts, committed by [onConnect]. *)
Inductive edit_step : FlowState -> FlowState -> Prop :=
| edit_addNode : forall st n, edit_step st (addNode n st)
| edit_connect : forall st c,
    isValidConnection_returns c (nodes st) (edges st) true ->
    edit_step st (onConnect c st).

Definition initialState : FlowState := mkFlowState [] [].

(** ** Visits made by one [checkForCycles] check *)

(** [arr.some(f)] collecting the nodes visited by each call of [f]. *)
Fixpoint some_visits {A : Type} (f : A -> option (bool * list string)) (l : list A)
  : option (bool * list string) :=
  match l with
  | [] => Some (false, [])
  | x :: l' =>
      match f x with
      | Some (true, t) => Some (true, t)
      | Some (false, t) =>
          match some_visits f l' with
          | Some (b, t') => Some (b, (t ++ t')%list)
          | None => None
          end
      | None => None
      end
  end.

(** [checkForCycles] instrumented with the ids of the nodes it is invoked
    on, in call order. *)
Fixpoint checkForCycles_visits (fuel : nat) (target source : Node.t)
    (nodes : list Node.t) (edges : list Edge.t) : option (bool * list string) :=
  match fuel with
  | O => None
  | S fuel' =>
      let outgoers := getOutgoers target nodes edges in
      if existsb (fun outgoer => String.eqb (Node.id outgoer) (Node.id source)) outgoers
      then Some (true, [Node.id target])
      else
        match some_visits (fun outgoer => checkForCycles_visits fuel' outgoer source nodes edges)
                          outgoers with
        | Some (b, t) => Some (b, Node.id target :: t)
        | None => None
        end
  end.

(** A chain of [k] diamonds [v i -> l i -> v (i+1)], [v i -> r i -> v (i+1)]. *)
Fixpoint xs (i : nat) : string :=
  match i with
  | O => EmptyString
  | S i' => String "x" (xs i')
  end.

Definition vid (i : nat) : string := String "v" (xs i).
Definition lid (i : nat) : string := String "l" (xs i).
Definition rid (i : nat) : string := String "r" (xs i).

Definition plain_node (id : string) : Node.t := Node.mk id "text_input" [].

Definition plain_edge (s t : string) : Edge.t :=
  Edge.mk (s ++ "-" ++ t) s t None (Some "a").

Fixpoint diamond_nodes (k : nat) : list Node.t :=
  match k with
  | O => [plain_node (vid 0)]
  | S k' => (diamond_nodes k' ++ [plain_node (lid k'); plain_node (rid k'); plain_node (vid k)])%list
  end.

Fixpoint diamond_edges (k : nat) : list Edge.t :=
  match k with
  | O => []
  | S k' => (diamond_edges k' ++
             [plain_edge (vid k') (lid k'); plain_edge (vid k') (rid k');
              plain_edge (lid k') (vid k); plain_edge (rid k') (vid k)])%list
  end.

(** A source node outside the diamond chain. *)
Definition src_node : Node.t := plain_node "src".

(** Two nodes and the edge ["a" -> "b"]. *)
Definition node_a : Node.t := plain_node "a".
Definition node_b : Node.t := plain_node "b".
Definition edge_ab : Edge.t := plain_edge "a" "b".

(** ** Text Input node ([components/nodes/io/TextInputNode.tsx]) *)

(** [s.replace(re, "")] for a global regex [re]: scanning left to right, a
    match found at the current position is removed and scanning resumes
    after it; otherwise the character is kept. [m s] is the length of the
    match of [re] at the start of [s], if any. *)
Fixpoint skip (n : nat) (s : string) : string :=
  match n, s with
  | O, _ => s
  | S n', EmptyString => EmptyString
  | S n', String _ s' => skip n' s'
  end.

Fixpoint replace_global (m : string -> option nat) (fuel : nat) (s : string) : string :=
  match fuel with
  | O => s
  | S fuel' =>
      match s with
      | EmptyString => EmptyString
      | String c s' =>
          match m s with
          | Some (S n) => replace_global m fuel' (skip (S n) s)
          | _ => String c (replace_global m fuel' s')
          end
      end
  end.

Definition replace_all (m : string -> option nat) (s : string) : string :=
  replace_global m (String.length s) s.

(** Position of the first [">"] in [s]. *)
Fixpoint index_of_gt (s : string) : option nat :=
  match s with
  | EmptyString => None
  | String c s' =>
      if Ascii.eqb c ">" then Some 0
      else option_map S (index_of_gt s')
  end.

(** [/<[^>]*>/]: a ["<"], the characters up to the first [">"], that [">"]. *)
Definition tag_match (s : string) : option nat :=
  match s with
  | String c rest =>
      if Ascii.eqb c "<" then option_map (fun i => i + 2) (index_of_gt rest) else None
  | EmptyString => None
  end.

(** Case folding of the [i] flag on ASCII letters. *)
Definition lower (c : ascii) : ascii :=
  let n := nat_of_ascii c in
  if (Nat.leb 65 n) && (Nat.leb n 90) then ascii_of_nat (n + 32) else c.

(** [p] (lower case) is a prefix of [s] up to case. *)
Fixpoint prefix_ci (p s : string) : bool :=
  match p, s with
  | EmptyString, _ => true
  | String a p', String b s' => Ascii.eqb a (lower b) && prefix_ci p' s'
  | String _ _, EmptyString => false
  end.

(** Index of the first occurrence of [p] in [s], up to case. *)
Fixpoint find_ci (p s : string) : option nat :=
  if prefix_ci p s then Some 0
  else match s with
       | EmptyString => None
       | String _ s' => option_map S (find_ci p s')
       end.

(** [\w]: [[A-Za-z0-9_]]. *)
Definition is_word_char (c : ascii) : bool :=
  let n := nat_of_ascii c in
  ((Nat.leb 48 n) && (Nat.leb n 57)) || ((Nat.leb 65 n) && (Nat.leb n 90))
  || ((Nat.leb 97 n) && (Nat.leb n 122)) || (Nat.eqb n 95).

(** The script regex of [TextInputNode.tsx] (line 29, flags [gi]) at the
    start of [s]. Its pattern is ["<script"], a word boundary [\b], a body,
    and ["</script>"]; the body is a run of characters other than ["<"]
    followed by any number of groups, each a ["<"] that does not start
    ["</script>"] (negative lookahead) and a run of characters other than
    ["<"]. The body consumes every ["<"] that does not start ["</script>"],
    so it stops exactly at the first ["</script>"] (up to case) after
    ["<script"], and there is no match when none follows. *)
Definition script_match (s : string) : option nat :=
  if prefix_ci "<script" s then
    let rest := skip 7 s in
    let boundary :=
      match rest with
      | EmptyString => true
      | String c _ => negb (is_word_char c)
      end in
    if boundary then
      option_map (fun i => 7 + i + 9) (find_ci "</script>" rest)
    else None
  else None.

(** [newValue.replace(script regex, "").replace(tag regex, "")], lines 28-30. *)
Definition sanitize (raw : string) : string :=
  replace_all tag_match (replace_all script_match raw).

(** No position of [o] starts a match of [/<[^>]*>/]. *)
Definition tag_free (o : string) : Prop :=
  forall pre suf, o = (pre ++ suf)%string -> tag_match suf = None.

(** [handleChange] of [TextInputNode]: [maxLength] is
    [data.config?.max_length] (a number, or [undefined] as [None]). The
    result is whether a validation error is shown and the value passed to
    [updateNodeData(id, { value: newValue })], [None] on the early
    return. *)
Definition handleChange (maxLength : option Z) (raw : string) : bool * option string :=
  let newValue := sanitize raw in
  let len := Z.of_nat (String.length newValue) in
  match maxLength with
  | Some m =>
      if negb (Z.eqb m 0) && Z.geb len m then
        (true, if Z.gtb len m then None else Some newValue)
      else (false, Some newValue)
  | None => (false, Some newValue)
  end.

(** The change event's effect on the store. *)
Definition handleChange_store (id : string) (maxLength : option Z) (raw : string)
    (st : FlowState) : FlowState :=
  match snd (handleChange maxLength raw) with
  | Some v => updateNodeData id [("value", JStr v)] st
  | None => st
  end.

(** ** Text Join node ([components/nodes/OutputNode.tsx], [TextJoinNode]) *)

(** [typeof data.config?.separator === "string" ? data.config.separator : " "] *)
Definition currentSeparator (data : JsObject) : string :=
  match get_prop data "config" with
  | JObj config =>
      match get_prop config "separator" with
      | JStr s => s
      | _ => " "
      end
  | _ => " "
  end.

(** ** Math Operation block *)

Inductive BlockValue : Type :=
| BNum (q : Q)
| BText (s : string).

Inductive BlockError : Type :=
| BlockExecutionError (message : string)
| UpstreamFailurePropagation.

Record BlockResult : Type := mkBlockResult {
  value : option BlockValue;
  error : option BlockError
}.

Inductive MathOperation : Type := add | subtract | multiply | divide.

Fixpoint lookup_input (inputs : list (string * BlockValue)) (h : string) : option BlockValue :=
  match inputs with
  | [] => None
  | (k, v) :: rest => if String.eqb k h then Some v else lookup_input rest h
  end.

(** Modelled from the spec: the backend Math Operation block's [run]
    (section 4.3; the backend blocks are not part of the sources). Inputs
    ["a"] and ["b"]; the configured operation is applied; division by zero
    yields a BlockExecutionError rather than an infinite or NaN value. A
    missing or non-numeric input is also reported as a BlockExecutionError. *)
Definition math_run (operation : MathOperation) (inputs : list (string * BlockValue))
  : BlockResult :=
  match lookup_input inputs "a", lookup_input inputs "b" with
  | Some (BNum a), Some (BNum b) =>
      match operation with
      | add => mkBlockResult (Some (BNum (a + b))) None
      | subtract => mkBlockResult (Some (BNum (a - b))) None
      | multiply => mkBlockResult (Some (BNum (a * b))) None
      | divide =>
          if Qeq_bool b 0 then mkBlockResult None (Some (BlockExecutionError "division by zero"))
          else mkBlockResult (Some (BNum (a / b))) None
      end
  | _, _ => mkBlockResult None (Some (BlockExecutionError "inputs a and b must be numbers"))
  end.

(** ** More of the JavaScript semantics the components use *)

(** Truthiness: [false] for [undefined], [null], [false], [0] and [""].
    The numbers of the model are integers, so there is no NaN. *)
Definition truthy (v : JsValue) : bool :=
  match v with
  | JUndefined | JNull => false
  | JBool b => b
  | JNum n => negb (Z.eqb n 0)
  | JStr s => negb (String.eqb s "")
  | JObj _ => true
  end.

(** Decimal digits of [n >= 0], prepended to [acc]. *)
Fixpoint digits_Z (fuel : nat) (n : Z) (acc : string) : string :=
  match fuel with
  | O => acc
  | S fuel' =>
      let acc' := String (ascii_of_nat (48 + Z.to_nat (Z.modulo n 10))) acc in
      if Z.ltb n 10 then acc' else digits_Z fuel' (Z.div n 10) acc'
  end.

(** [String(n)] for an integer: its decimal form (JavaScript prints the
    integers below 10^21 so). *)
Definition string_of_Z (z : Z) : string :=
  if Z.ltb z 0 then "-" ++ digits_Z (S (Z.to_nat (Z.log2 (- z)))) (- z) ""
  else digits_Z (S (Z.to_nat (Z.log2 z))) z "".

(** [String(v)], also the value of [`${v}`]. *)
Definition js_String (v : JsValue) : string :=
  match v with
  | JUndefined => "undefined"
  | JNull => "null"
  | JBool true => "true"
  | JBool false => "false"
  | JNum n => string_of_Z n
  | JStr s => s
  | JObj _ => "[object Object]"
  end.

(** [typeof v]. *)
Definition js_typeof (v : JsValue) : string :=
  match v with
  | JUndefined => "undefined"
  | JNull => "object"
  | JBool _ => "boolean"
  | JNum _ => "number"
  | JStr _ => "string"
  | JObj _ => "object"
  end.

(** [v === "lit"]. *)
Definition is_str (v : JsValue) (lit : string) : bool :=
  match v with
  | JStr s => String.eqb s lit
  | _ => false
  end.

(** The own properties of a string: its characters under their indices. *)
Fixpoint string_entries (i : nat) (s : string) : JsObject :=
  match s with
  | EmptyString => []
  | String c s' => (string_of_Z (Z.of_nat i), JStr (String c EmptyString)) :: string_entries (S i) s'
  end.

(** [{ ...v }]: a copy of an object, a string's characters under their
    indices, and no property for [undefined], [null], booleans and
    numbers. *)
Definition spread_value (v : JsValue) : JsObject :=
  match v with
  | JObj p => spread [] p
  | JStr s => string_entries 0 s
  | _ => []
  end.

(** [data.config?.k] (and [(data.config || {}).k]) for the keys the
    components read: a property of the config object, [undefined] when the
    config is absent or not an object. *)
Definition config_prop (data : JsObject) (k : string) : JsValue :=
  match get_prop data "config" with
  | JObj config => get_prop config k
  | _ => JUndefined
  end.

(** ** React Flow's [applyNodeChanges] and [applyEdgeChanges] *)

(** A node or edge change. The records of the model have no [selected],
    [position] or dimension fields, so the select, position and dimensions
    changes leave a record as it is; edges only receive select, remove, add
    and reset changes. *)
Inductive Change (A : Type) : Type :=
| ChangeSelect (id : string) (selected : bool)
| ChangePosition (id : string)
| ChangeDimensions (id : string)
| ChangeRemove (id : string)
| ChangeAdd (item : A)
| ChangeReset (item : A).

Arguments ChangeSelect {A} id selected.
Arguments ChangePosition {A} id.
Arguments ChangeDimensions {A} id.
Arguments ChangeRemove {A} id.
Arguments ChangeAdd {A} item.
Arguments ChangeReset {A} item.

(** [c.id]: the add and reset changes carry an item, not an id. *)
Definition change_id {A} (c : Change A) : option string :=
  match c with
  | ChangeSelect id _ | ChangePosition id | ChangeDimensions id | ChangeRemove id => Some id
  | ChangeAdd _ | ChangeReset _ => None
  end.

Definition is_reset {A} (c : Change A) : bool :=
  match c with ChangeReset _ => true | _ => false end.

Definition is_remove {A} (c : Change A) : bool :=
  match c with ChangeRemove _ => true | _ => false end.

(** [applyChanges(changes, elements)] of React Flow 11: a reset replaces the
    list by the reset items; otherwise the added items come first, then every
    element in order, dropped when one of its changes is a remove. *)
Definition applyChanges {A : Type} (id_of : A -> string) (changes : list (Change A))
    (elements : list A) : list A :=
  if existsb is_reset changes then
    flat_map (fun c => match c with ChangeReset item => [item] | _ => [] end) changes
  else
    let initElements :=
      flat_map (fun c => match c with ChangeAdd item => [item] | _ => [] end) changes in
    fold_left
      (fun res item =>
         let currentChanges :=
           filter (fun c => match change_id c with
                            | Some i => String.eqb i (id_of item)
                            | None => false
                            end) changes in
         match currentChanges with
         | [] => (res ++ [item])%list
         | _ => if existsb is_remove currentChanges then res else (res ++ [item])%list
         end)
      elements initElements.

(** [onNodesChange: (changes) => set({ nodes: applyNodeChanges(changes, get().nodes) })] *)
Definition onNodesChange (changes : list (Change Node.t)) (st : FlowState) : FlowState :=
  mkFlowState (applyChanges Node.id changes (nodes st)) (edges st).

(** [onEdgesChange: (changes) => set({ edges: applyEdgeChanges(changes, get().edges) })] *)
Definition onEdgesChange (changes : list (Change Edge.t)) (st : FlowState) : FlowState :=
  mkFlowState (nodes st) (applyChanges Edge.id changes (edges st)).

(** A change that neither adds nor resets. *)
Definition adds_nothing {A} (c : Change A) : bool :=
  match c with ChangeAdd _ | ChangeReset _ => false | _ => true end.

(** Some change removes the id [i]. *)
Definition removes_id {A} (changes : list (Change A)) (i : string) : bool :=
  existsb (fun c => match c with ChangeRemove j => String.eqb j i | _ => false end) changes.

(** ** Dropping a node on the canvas ([app/page.tsx], [onDrop]) *)

(** [type] is [event.dataTransfer.getData("application/reactflow")],
    [hasInstance] whether the React Flow instance is initialised, [newId]
    the [crypto.randomUUID()] of the new node (its position is not part of
    the model). *)
Definition onDrop (type : string) (hasInstance : bool) (newId : string) (st : FlowState)
  : FlowState :=
  if String.eqb type "" || negb hasInstance then st
  else addNode (Node.mk newId type [("label", JStr (type ++ " node")); ("status", JStr "idle")]) st.

(** The edits the canvas makes: drops, connections the gate accepts, and
    edge changes that select or remove edges. *)
Inductive ui_step : FlowState -> FlowState -> Prop :=
| ui_drop : forall st type hasInstance newId, ui_step st (onDrop type hasInstance newId st)
| ui_connect : forall st c,
    isValidConnection_returns c (nodes st) (edges st) true -> ui_step st (onConnect c st)
| ui_edges_change : forall st changes,
    forallb adds_nothing changes = true -> ui_step st (onEdgesChange changes st).

(** ** Text Join node: committing a separator and its preview *)

(** [applyValue(value)]: [setLocalSeparator(value)] and
    [updateNodeData(id, { config: { ...data.config, separator: value } })],
    where [data] is the node's data the component renders. The result is the
    new local separator and the store. *)
Definition applyValue (id : string) (data : JsObject) (value : string) (st : FlowState)
  : string * FlowState :=
  (value,
   updateNodeData id
     [("config", JObj (set_prop (spread_value (get_prop data "config")) "separator" (JStr value)))]
     st).

(** The preview shows glyphs outside ASCII, so its strings are lists of
    UTF-16 code units: ["A"] is 65, ["B"] 66, ["\n"] 10, ["\t"] 9, and the
    glyphs are U+21B5 (8629), U+2192 (8594), U+2205 (8709) and the ellipsis
    U+2026 (8230). *)
Definition formatSeparatorForPreview (separator : list N) : list N :=
  if list_eq_dec N.eq_dec separator [10%N] then [8629%N]
  else if list_eq_dec N.eq_dec separator [9%N] then [8594%N]
  else if list_eq_dec N.eq_dec separator [] then [8709%N]
  else separator.

Definition PREVIEW_MAX_LENGTH : nat := 28.

(** [buildPreview(separator)]: [`A${sep}B`], cut to its first 28 units and
    an ellipsis when longer. *)
Definition buildPreview (separator : list N) : list N :=
  let sep := formatSeparatorForPreview separator in
  let preview := (65%N :: sep ++ [66%N])%list in
  if Nat.ltb PREVIEW_MAX_LENGTH (List.length preview)
  then (firstn PREVIEW_MAX_LENGTH preview ++ [8230%N])%list
  else preview.

(** ** Math Operation node ([MathOperationNode]) *)

(** [data.config?.operation || "add"]. *)
Definition currentOperation (data : JsObject) : JsValue :=
  let op := config_prop data "operation" in
  if truthy op then op else JStr "add".

(** [handleOperationChange(value)]:
    [updateNodeData(id, { config: { ...data.config, operation } })]. *)
Definition handleOperationChange (id : string) (data : JsObject) (value : string)
    (st : FlowState) : FlowState :=
  updateNodeData id
    [("config", JObj (set_prop (spread_value (get_prop data "config")) "operation" (JStr value)))]
    st.

(** ** Text Output node ([TextOutputNode], [formatValue]) *)

Section TextOutput.

(** [JSON.stringify(v, null, 2)] on an object: the values of the model hold
    no cycle and no BigInt, so it returns a string and never throws. *)
Variable json_stringify : JsValue -> string.

(** Lines 45-64: the text of a value that is neither [null] nor [undefined]
    in the format [data.config?.format || "plain"]. *)
Definition formatText (format_cfg rawValue : JsValue) : string :=
  let format := if truthy format_cfg then format_cfg else JStr "plain" in
  if is_str format "json" then
    match rawValue with
    | JObj _ => json_stringify rawValue
    | _ => json_stringify (JObj [("value", rawValue)])
    end
  else if is_str format "pretty" then
    "[" ++ js_typeof rawValue ++ "] " ++ js_String rawValue
  else js_String rawValue.

(** [formatValue()]: the displayed text and whether it was truncated.
    [maxLength] is [data.config?.max_display_length] (a number, or
    [undefined] as [None]); [substring(0, m)] takes no character for
    [m <= 0]. *)
Definition formatValue (maxLength : option Z) (data : JsObject) : string * bool :=
  let rawValue := get_prop data "value" in
  match rawValue with
  | JNull | JUndefined => ("", false)
  | _ =>
      let formattedText := formatText (config_prop data "format") rawValue in
      match maxLength with
      | Some m =>
          if negb (Z.eqb m 0) && Z.gtb (Z.of_nat (String.length formattedText)) m
          then (String.substring 0 (Z.to_nat m) formattedText ++ "...", true)
          else (formattedText, false)
      | None => (formattedText, false)
      end
  end.

End TextOutput.

(** ** Number Input node ([NumberInputNode], [handleChange]) *)

(** A JavaScript number as the node computes it: a finite rational, [None]
    is NaN. *)
Definition JsNumber := option Q.

(** What a change event does to the node's value. *)
Inductive NumberCommit : Type :=
| KeepValue
| CommitNull
| CommitNumber (q : Q).

Section NumberInput.

(** [parseInt(s, 10)], [parseFloat(s)], and the conversion [Number(s)] that
    [<] applies to a string operand. *)
Variable parseInt10 : string -> JsNumber.
Variable parseFloat : string -> JsNumber.
Variable stringToNumber : string -> JsNumber.

(** [ToNumber] of a config value, as [<] and [>] apply it. *)
Definition to_number (v : JsValue) : JsNumber :=
  match v with
  | JUndefined => None
  | JNull => Some 0%Q
  | JBool b => Some (if b then 1 else 0)%Q
  | JNum n => Some (inject_Z n)
  | JStr s => stringToNumber s
  | JObj _ => None
  end.

(** [x < y]: false when either side is NaN. *)
Definition js_lt (x y : JsNumber) : bool :=
  match x, y with
  | Some a, Some b => negb (Qle_bool b a)
  | _, _ => false
  end.

(** [Number.isInteger(q)] on a finite number. *)
Definition is_integer (q : Q) : bool :=
  Z.eqb (Z.modulo (Qnum q) (Zpos (Qden q))) 0.

(** [handleChange(e)] with [rawValue = e.target.value]: the validation error
    it sets ([None] clears it) and what it commits through
    [updateNodeData]. Nothing in the [try] block throws. *)
Definition number_handleChange (data : JsObject) (rawValue : string)
  : option string * NumberCommit :=
  if String.eqb rawValue "" then (None, CommitNull)
  else
    let nt := config_prop data "number_type" in
    let numberType := if truthy nt then nt else JStr "auto" in
    let parsed : Q + string :=
      if is_str numberType "int" then
        (* [!Number.isInteger(parsedValue) || isNaN(parsedValue)] *)
        match parseInt10 rawValue with
        | Some q => if is_integer q then inl q else inr "Value must be a valid integer"
        | None => inr "Value must be a valid integer"
        end
      else
        (* ["float"] and ["auto"]: [parseFloat], rejected when NaN *)
        match parseFloat rawValue with
        | Some q => inl q
        | None => inr "Value must be a valid number"
        end in
    match parsed with
    | inr msg => (Some msg, KeepValue)
    | inl parsedValue =>
        let min_value := config_prop data "min_value" in
        let max_value := config_prop data "max_value" in
        if negb (match min_value with JUndefined => true | _ => false end)
           && js_lt (Some parsedValue) (to_number min_value)
        then (Some ("Value must be at least " ++ js_String min_value), KeepValue)
        else if negb (match max_value with JUndefined => true | _ => false end)
                && js_lt (to_number max_value) (Some parsedValue)
        then (Some ("Value must be at most " ++ js_String max_value), KeepValue)
        else (None, CommitNumber parsedValue)
    end.

End NumberInput.

(** * Proofs *)

(** ** [some] with a possibly non-returning callback *)

Lemma some_opt_true {A} (f : A -> option bool) l :
  some_opt f l = Some true -> exists x, In x l /\ f x = Some true.
Proof.
  induction l as [|x l IH]; simpl; [discriminate|].
  destruct (f x) as [[|]|] eqn:Hf; intros H.
  - eauto.
  - destruct (IH H) as (y & Hy & Hfy); eauto.
  - discriminate.
Qed.

Lemma some_opt_false {A} (f : A -> option bool) l :
  some_opt f l = Some false -> forall x, In x l -> f x = Some false.
Proof.
  induction l as [|x l IH]; simpl; [tauto|].
  destruct (f x) as [[|]|] eqn:Hf; intros H y Hy; try discriminate.
  destruct Hy as [<-|Hy]; auto.
Qed.

Lemma some_opt_none {A} (f : A -> option bool) l :
  some_opt f l = None -> exists x, In x l /\ f x = None.
Proof.
  induction l as [|x l IH]; simpl; [discriminate|].
  destruct (f x) as [[|]|] eqn:Hf; intros H; try discriminate.
  - destruct (IH H) as (y & Hy & Hfy); eauto.
  - eauto.
Qed.

Lemma some_opt_mono {A} (f g : A -> option bool) l :
  (forall x b, In x l -> f x = Some b -> g x = Some b) ->
  forall b, some_opt f l = Some b -> some_opt g l = Some b.
Proof.
  induction l as [|x l IH]; simpl; intros Hfg b H; [exact H|].
  destruct (f x) as [[|]|] eqn:Hf; try discriminate.
  - rewrite (Hfg x true (or_introl eq_refl) Hf). exact H.
  - rewrite (Hfg x false (or_introl eq_refl) Hf). apply IH; auto.
Qed.

(** ** [getOutgoers] *)

Lemma getOutgoers_spec n ns es o :
  In o (getOutgoers n ns es) <->
  In o ns /\ exists e, In e es /\ Edge.source e = Node.id n /\ Edge.target e = Node.id o.
Proof.
  unfold getOutgoers. rewrite filter_In, existsb_exists.
  split.
  - intros [Ho (t & Ht & Heq)]. split; [exact Ho|].
    apply String.eqb_eq in Heq. subst t.
    apply in_map_iff in Ht as (e & He & Hin).
    apply filter_In in Hin as [Hin Hs]. apply String.eqb_eq in Hs.
    exists e. auto.
  - intros [Ho (e & He & Hs & Ht)]. split; [exact Ho|].
    exists (Edge.target e). split.
    + apply in_map. apply filter_In. split; [exact He|]. apply String.eqb_eq. exact Hs.
    + apply String.eqb_eq. symmetry. exact Ht.
Qed.

Lemma in_node_ids ns x : In x (node_ids ns) <-> exists n, In n ns /\ Node.id n = x.
Proof.
  unfold node_ids. rewrite in_map_iff. firstorder.
Qed.

Lemma outgoer_step_getOutgoers n ns es y :
  outgoer_step ns es (Node.id n) y <-> exists o, In o (getOutgoers n ns es) /\ Node.id o = y.
Proof.
  unfold outgoer_step. split.
  - intros (e & He & Hs & Ht & Hy).
    apply in_node_ids in Hy as (o & Ho & Hid).
    exists o. split; [|exact Hid].
    apply getOutgoers_spec. split; [exact Ho|]. exists e. subst. auto.
  - intros (o & Ho & <-).
    apply getOutgoers_spec in Ho as [Ho (e & He & Hs & Ht)].
    exists e. repeat split; auto. apply in_node_ids. eauto.
Qed.

(** ** [checkForCycles] decides reachability whenever it returns *)

Lemma checkForCycles_sound fuel t s ns es b :
  checkForCycles fuel t s ns es = Some b ->
  (b = true <-> reachable_in ns es (Node.id t) (Node.id s)).
Proof.
  revert t b. induction fuel as [|fuel IH]; intros t b H; simpl in H; [discriminate|].
  destruct (existsb _ _) eqn:Hex.
  - injection H as <-. split; [intros _|reflexivity].
    apply existsb_exists in Hex as (o & Ho & Heq). apply String.eqb_eq in Heq.
    apply t_step. apply outgoer_step_getOutgoers. eauto.
  - destruct b.
    + split; [intros _|reflexivity].
      apply some_opt_true in H as (o & Ho & Hfo).
      pose proof (proj1 (IH o true Hfo) eq_refl) as Hr.
      eapply t_trans; [apply t_step|exact Hr].
      apply outgoer_step_getOutgoers. eauto.
    + split; [discriminate|]. intros Hr.
      apply clos_trans_t1n in Hr. inversion Hr as [y Hst | y z Hst Hrest]; subst.
      * apply outgoer_step_getOutgoers in Hst as (o & Ho & Hid).
        assert (Hin : existsb (fun outgoer => String.eqb (Node.id outgoer) (Node.id s))
                              (getOutgoers t ns es) = true).
        { apply existsb_exists. exists o. split; [exact Ho|]. apply String.eqb_eq. exact Hid. }
        congruence.
      * apply outgoer_step_getOutgoers in Hst as (o & Ho & Hid).
        pose proof (some_opt_false _ _ H o Ho) as Hfo.
        apply (IH o false) in Hfo. apply Hfo. subst y.
        apply clos_t1n_trans. exact Hrest.
Qed.

Lemma checkForCycles_mono fuel fuel' t s ns es b :
  fuel <= fuel' -> checkForCycles fuel t s ns es = Some b ->
  checkForCycles fuel' t s ns es = Some b.
Proof.
  revert fuel' t b. induction fuel as [|fuel IH]; intros fuel' t b Hle H;
    simpl in H; [discriminate|].
  destruct fuel' as [|fuel']; [lia|]. simpl.
  destruct (existsb _ _); [exact H|].
  eapply some_opt_mono; [|exact H].
  intros o b' _ Ho. apply IH; [lia|exact Ho].
Qed.

Lemma checkForCycles_none_walk fuel t s ns es :
  checkForCycles fuel t s ns es = None ->
  exists p, List.length p = fuel /\ walk (outgoer_step ns es) (Node.id t) p.
Proof.
  revert t. induction fuel as [|fuel IH]; intros t H.
  - exists []. simpl. auto.
  - simpl in H. destruct (existsb _ _); [discriminate|].
    apply some_opt_none in H as (o & Ho & Hfo).
    destruct (IH o Hfo) as (p & Hlen & Hw).
    exists (Node.id o :: p). simpl. split; [congruence|]. split; [|exact Hw].
    apply outgoer_step_getOutgoers. eauto.
Qed.

(** ** Termination on acyclic graphs *)

Lemma walk_reach (R : string -> string -> Prop) x p z :
  walk R x p -> In z p -> clos_trans string R x z.
Proof.
  revert x. induction p as [|y p IH]; simpl; intros x Hw Hz; [contradiction|].
  destruct Hw as [Hxy Hw]. destruct Hz as [<-|Hz].
  - apply t_step. exact Hxy.
  - eapply t_trans; [apply t_step; exact Hxy|]. apply IH; assumption.
Qed.

Lemma walk_NoDup (R : string -> string -> Prop) x p :
  (forall y, ~ clos_trans string R y y) -> walk R x p -> NoDup p.
Proof.
  intros Hac. revert x. induction p as [|y p IH]; simpl; intros x Hw; [constructor|].
  destruct Hw as [_ Hw]. constructor.
  - intros Hy. apply (Hac y). eapply walk_reach; eassumption.
  - eapply IH. exact Hw.
Qed.

Lemma walk_incl ns es x p :
  walk (outgoer_step ns es) x p -> incl p (node_ids ns).
Proof.
  revert x. induction p as [|y p IH]; simpl; intros x Hw z Hz; [contradiction|].
  destruct Hw as [(e & _ & _ & _ & Hy) Hw]. destruct Hz as [<-|Hz]; [exact Hy|].
  eapply IH; eassumption.
Qed.

Lemma outgoer_step_edge_step ns es x y :
  outgoer_step ns es x y -> edge_step es x y.
Proof.
  intros (e & He & Hs & Ht & _). exists e. auto.
Qed.

Lemma reachable_in_reachable ns es x y :
  reachable_in ns es x y -> reachable es x y.
Proof.
  induction 1 as [x y H|x y z _ IH1 _ IH2].
  - apply t_step. eapply outgoer_step_edge_step. exact H.
  - eapply t_trans; eassumption.
Qed.

Lemma checkForCycles_total ns es t s :
  acyclic es -> exists b, checkForCycles (S (List.length ns)) t s ns es = Some b.
Proof.
  intros Hac.
  destruct (checkForCycles (S (List.length ns)) t s ns es) as [b|] eqn:H; [eauto|].
  exfalso.
  destruct (checkForCycles_none_walk _ _ _ _ _ H) as (p & Hlen & Hw).
  assert (Hnd : NoDup p).
  { eapply walk_NoDup; [|exact Hw].
    intros y Hy. apply (Hac y). eapply reachable_in_reachable. exact Hy. }
  pose proof (NoDup_incl_length Hnd (walk_incl _ _ _ _ Hw)) as Hle.
  unfold node_ids in Hle. rewrite length_map in Hle. lia.
Qed.

Lemma checkForCycles_returns_iff ns es t s :
  acyclic es ->
  forall b, checkForCycles_returns t s ns es b <->
            (b = true <-> reachable_in ns es (Node.id t) (Node.id s)).
Proof.
  intros Hac b. split.
  - intros (fuel & H). eapply checkForCycles_sound. exact H.
  - intros Hb. destruct (checkForCycles_total ns es t s Hac) as (b' & H).
    exists (S (List.length ns)). rewrite H. f_equal.
    apply checkForCycles_sound in H.
    destruct b, b'; try reflexivity.
    + apply H. apply Hb. reflexivity.
    + symmetry. apply Hb. apply H. reflexivity.
Qed.

Lemma ranked_acyclic rank es :
  ranked_by rank es = true -> acyclic es.
Proof.
  intros H. unfold ranked_by in H. rewrite forallb_forall in H.
  assert (Hlt : forall x y, reachable es x y -> rank x < rank y).
  { induction 1 as [x y (e & He & <- & <-)|x y z _ IH1 _ IH2].
    - apply Nat.ltb_lt. apply H. exact He.
    - lia. }
  intros x Hx. apply Hlt in Hx. lia.
Qed.

Lemma reachable_nil x y : ~ reachable [] x y.
Proof.
  induction 1 as [x y (e & He & _)|]; [contradiction|assumption].
Qed.

(** ** [isValidConnection] *)

Lemma handle_eqb_eq h1 h2 : handle_eqb h1 h2 = true <-> h1 = h2.
Proof.
  destruct h1 as [a|], h2 as [b|]; simpl; split; intros H; try discriminate; auto.
  - apply String.eqb_eq in H. congruence.
  - injection H as ->. apply String.eqb_refl.
Qed.

Lemma find_node_some ns x n :
  find (fun n => String.eqb (Node.id n) x) ns = Some n -> In n ns /\ Node.id n = x.
Proof.
  intros H. apply find_some in H as [Hin Heq]. apply String.eqb_eq in Heq. auto.
Qed.

Lemma find_node_none ns x :
  find (fun n => String.eqb (Node.id n) x) ns = None -> ~ In x (node_ids ns).
Proof.
  intros H Hx. apply in_node_ids in Hx as (n & Hn & Hid).
  pose proof (find_none _ _ H n Hn) as Hf. simpl in Hf.
  rewrite Hid, String.eqb_refl in Hf. discriminate.
Qed.

Lemma isValidConnection_sound fuel c ns es b :
  isValidConnection fuel c ns es = Some b -> (b = false <-> rejected c ns es).
Proof.
  unfold isValidConnection, rejected.
  destruct (String.eqb (Connection.source c) (Connection.target c)) eqn:E1.
  { intros H. injection H as <-. apply String.eqb_eq in E1. tauto. }
  apply String.eqb_neq in E1.
  destruct (existsb _ es) eqn:E2.
  { intros H. injection H as <-. split; [intros _|reflexivity].
    right. left. apply existsb_exists in E2 as (e & He & Heq).
    apply andb_true_iff in Heq as [Ht Hh].
    apply String.eqb_eq in Ht. apply handle_eqb_eq in Hh. eauto. }
  assert (Hno : ~ exists e, In e es /\ Edge.target e = Connection.target c
                             /\ Edge.targetHandle e = Connection.targetHandle c).
  { intros (e & He & Ht & Hh).
    assert (Hex : existsb (fun edge => String.eqb (Edge.target edge) (Connection.target c)
                        && handle_eqb (Edge.targetHandle edge) (Connection.targetHandle c))
                          es = true).
    { apply existsb_exists. exists e. split; [exact He|].
      rewrite Ht, Hh, String.eqb_refl. simpl. apply handle_eqb_eq. reflexivity. }
    congruence. }
  destruct (find (fun n => String.eqb (Node.id n) (Connection.source c)) ns) as [sn|] eqn:F1;
    [|intros H; injection H as <-; split; [intros _|reflexivity];
      right; right; left; apply find_node_none; exact F1].
  destruct (find (fun n => String.eqb (Node.id n) (Connection.target c)) ns) as [tn|] eqn:F2;
    [|intros H; injection H as <-; split; [intros _|reflexivity];
      right; right; right; left; apply find_node_none; exact F2].
  apply find_node_some in F1 as [Hsn Hsid]. apply find_node_some in F2 as [Htn Htid].
  destruct (checkForCycles fuel tn sn ns es) as [[|]|] eqn:C; intros H; try discriminate;
    injection H as <-; apply checkForCycles_sound in C; rewrite Hsid, Htid in C.
  - split; [intros _|reflexivity]. right. right. right. right. apply C. reflexivity.
  - split; [discriminate|].
    intros [Heq|[Hex|[Hs|[Ht|Hr]]]]; exfalso.
    + contradiction.
    + contradiction.
    + apply Hs. apply in_node_ids. eauto.
    + apply Ht. apply in_node_ids. eauto.
    + apply C in Hr. discriminate.
Qed.

Lemma isValidConnection_total ns es c :
  acyclic es -> exists b, isValidConnection (S (List.length ns)) c ns es = Some b.
Proof.
  intros Hac. unfold isValidConnection.
  destruct (String.eqb _ _); [eauto|].
  destruct (existsb _ _); [eauto|].
  destruct (find (fun n => String.eqb (Node.id n) (Connection.source c)) ns) as [sn|];
    [|eauto].
  destruct (find (fun n => String.eqb (Node.id n) (Connection.target c)) ns) as [tn|];
    [|eauto].
  destruct (checkForCycles_total ns es tn sn Hac) as (b & ->).
  destruct b; eauto.
Qed.

Lemma isValidConnection_returns_iff ns es c :
  acyclic es ->
  forall b, isValidConnection_returns c ns es b <-> (b = false <-> rejected c ns es).
Proof.
  intros Hac b. split.
  - intros (fuel & H). eapply isValidConnection_sound. exact H.
  - intros Hb. destruct (isValidConnection_total ns es c Hac) as (b' & H).
    exists (S (List.length ns)). rewrite H. f_equal.
    apply isValidConnection_sound in H.
    destruct b, b'; try reflexivity; exfalso;
      first [ pose proof (proj2 Hb (proj1 H eq_refl)); discriminate
            | pose proof (proj2 H (proj1 Hb eq_refl)); discriminate ].
Qed.

(** * Claims *)

(** ** C1 *)

(** C1 (counterexample): the connection ["a" -> "b"] on a graph with no
    nodes and no edges is rejected, yet it is no self-loop, no edge targets
    its target handle and ["a"] is not reachable from ["b"]. *)
Lemma C1_absent_endpoints_rejected :
  let c := Connection.mk "a" "b" None (Some "a") in
  isValidConnection_returns c [] [] false
  /\ Connection.source c <> Connection.target c
  /\ ~ (exists e, In e [] /\ Edge.target e = Connection.target c
                 /\ Edge.targetHandle e = Connection.targetHandle c)
  /\ ~ reachable [] (Connection.target c) (Connection.source c).
Proof.
  simpl. split; [exists 0; reflexivity|].
  split; [discriminate|]. split.
  - intros (e & He & _). exact He.
  - apply reachable_nil.
Qed.

(** C1 (amended): on an acyclic edge list, [isValidConnection] returns, and
    it rejects a connection exactly when the source equals the target, or an
    edge already targets the same (target, targetHandle) pair, or the source
    or the target id is absent from the node list, or the source is
    reachable from the target along edges into listed nodes; it accepts in
    every other case. *)
Theorem isValidConnection_rejects_iff ns es c :
  acyclic es ->
  (isValidConnection_returns c ns es false <-> rejected c ns es)
  /\ (isValidConnection_returns c ns es true <-> ~ rejected c ns es).
Proof.
  intros Hac. split.
  - rewrite (isValidConnection_returns_iff ns es c Hac false). tauto.
  - rewrite (isValidConnection_returns_iff ns es c Hac true).
    split; [intros H Hr; apply H in Hr; discriminate|intros Hn; split; [discriminate|tauto]].
Qed.

Lemma isValidConnection_rejects_iff_witness :
  acyclic [edge_ab]
  /\ ((isValidConnection_returns (Connection.mk "b" "a" None (Some "b")) [node_a; node_b] [edge_ab] false
       <-> rejected (Connection.mk "b" "a" None (Some "b")) [node_a; node_b] [edge_ab])
      /\ (isValidConnection_returns (Connection.mk "b" "a" None (Some "b")) [node_a; node_b] [edge_ab] true
          <-> ~ rejected (Connection.mk "b" "a" None (Some "b")) [node_a; node_b] [edge_ab])).
Proof.
  assert (Hac : acyclic [edge_ab]).
  { apply (ranked_acyclic (fun x => if String.eqb x "a" then 0 else 1)). vm_compute. reflexivity. }
  split; [exact Hac|]. apply isValidConnection_rejects_iff. exact Hac.
Defined.

(** ** C4 *)

(** C4 (counterexample): with nodes ["t"] and ["s"] and the acyclic edges
    ["t" -> "x"], ["x" -> "s"] where ["x"] is not a listed node,
    [checkForCycles] returns false although ["s"] is reachable from ["t"]
    along the edges: [getOutgoers] only yields listed nodes. *)
Lemma C4_dangling_edge_hides_path :
  let ns := [plain_node "t"; plain_node "s"] in
  let es := [plain_edge "t" "x"; plain_edge "x" "s"] in
  acyclic es
  /\ In "t" (node_ids ns) /\ In "s" (node_ids ns) /\ "t" <> "s"
  /\ reachable es "t" "s"
  /\ checkForCycles_returns (plain_node "t") (plain_node "s") ns es false.
Proof.
  simpl. split.
  { apply (ranked_acyclic (fun x => if String.eqb x "t" then 0 else if String.eqb x "x" then 1 else 2)).
    vm_compute. reflexivity. }
  split; [auto|]. split; [auto|]. split; [discriminate|]. split.
  - eapply t_trans; apply t_step.
    + exists (plain_edge "t" "x"). simpl. auto.
    + exists (plain_edge "x" "s"). simpl. auto.
  - exists 3. vm_compute. reflexivity.
Qed.

(** C4 (amended): on an acyclic edge list, [checkForCycles(target, source,
    nodes, edges)] returns, and it returns true exactly when the source is
    reachable from the target in one or more steps along edges whose target
    is a listed node (false otherwise). *)
Theorem checkForCycles_decides_reachability ns es t s :
  acyclic es ->
  (checkForCycles_returns t s ns es true <-> reachable_in ns es (Node.id t) (Node.id s))
  /\ (checkForCycles_returns t s ns es false <-> ~ reachable_in ns es (Node.id t) (Node.id s)).
Proof.
  intros Hac. rewrite !(checkForCycles_returns_iff ns es t s Hac). split.
  - tauto.
  - split; [intros H Hr; apply H in Hr; discriminate|intros Hn; split; [discriminate|tauto]].
Qed.

Lemma checkForCycles_decides_reachability_witness :
  acyclic [edge_ab]
  /\ ((checkForCycles_returns node_a node_b [node_a; node_b] [edge_ab] true
       <-> reachable_in [node_a; node_b] [edge_ab] "a" "b")
      /\ (checkForCycles_returns node_a node_b [node_a; node_b] [edge_ab] false
          <-> ~ reachable_in [node_a; node_b] [edge_ab] "a" "b")).
Proof.
  assert (Hac : acyclic [edge_ab]).
  { apply (ranked_acyclic (fun x => if String.eqb x "a" then 0 else 1)). vm_compute. reflexivity. }
  split; [exact Hac|]. apply (checkForCycles_decides_reachability _ _ node_a node_b). exact Hac.
Defined.

(** ** C5 *)

(** C5: a connection whose source or target id is not a listed node is
    rejected, whatever the recursion depth: the lookup precedes the cycle
    check. *)
Theorem isValidConnection_absent_node_rejected fuel c ns es :
  ~ In (Connection.source c) (node_ids ns) \/ ~ In (Connection.target c) (node_ids ns) ->
  isValidConnection fuel c ns es = Some false.
Proof.
  intros Habs. unfold isValidConnection.
  destruct (String.eqb _ _); [reflexivity|].
  destruct (existsb _ _); [reflexivity|].
  destruct (find (fun n => String.eqb (Node.id n) (Connection.source c)) ns) as [sn|] eqn:F1;
    [|reflexivity].
  destruct (find (fun n => String.eqb (Node.id n) (Connection.target c)) ns) as [tn|] eqn:F2;
    [|reflexivity].
  apply find_node_some in F1 as [Hsn Hsid]. apply find_node_some in F2 as [Htn Htid].
  exfalso. destruct Habs as [H|H]; apply H; apply in_node_ids; eauto.
Qed.

Lemma isValidConnection_absent_node_rejected_witness :
  (~ In "c" (node_ids [node_a; node_b]) \/ ~ In "a" (node_ids [node_a; node_b]))
  /\ isValidConnection 5 (Connection.mk "c" "a" None (Some "a")) [node_a; node_b] [edge_ab]
     = Some false.
Proof.
  assert (H : ~ In "c" (node_ids [node_a; node_b]) \/ ~ In "a" (node_ids [node_a; node_b])).
  { left. simpl. intros [H|[H|H]]; discriminate || contradiction. }
  split; [exact H|]. apply (isValidConnection_absent_node_rejected 5 (Connection.mk "c" "a" None (Some "a"))).
  exact H.
Defined.

(** ** The invariants under editing *)

Lemma edge_step_snoc es e x y :
  edge_step (es ++ [e]) x y <-> edge_step es x y \/ (x = Edge.source e /\ y = Edge.target e).
Proof.
  unfold edge_step. split.
  - intros (e' & He' & Hs & Ht). apply in_app_or in He' as [He'|[<-|[]]].
    + left. eauto.
    + right. auto.
  - intros [(e' & He' & Hs & Ht)|[-> ->]].
    + exists e'. split; [apply in_or_app; left; exact He'|auto].
    + exists e. split; [apply in_or_app; right; left; reflexivity|auto].
Qed.

Section AddEdge.
Ltac close_end :=
  first [ left; reflexivity | right; assumption | right; eapply t_trans; eassumption ].

Ltac close_path :=
  solve [ left; assumption
        | left; eapply t_trans; eassumption
        | right; split; close_end
        | exfalso; match goal with
                   | H : Edge.source ?e <> Edge.target ?e |- _ => apply H; congruence
                   end
        | exfalso; match goal with
                   | H : ~ reachable _ _ _ |- _ =>
                       apply H; first [ assumption | eapply t_trans; eassumption ]
                   end ].

Variable es : list Edge.t.
Variable e : Edge.t.
Hypothesis Hne : Edge.source e <> Edge.target e.
Hypothesis Hnr : ~ reachable es (Edge.target e) (Edge.source e).

(** A path through the new edge [s -> t] splits at it; it is used at most
    once, since a second use needs a path from [t] back to [s]. *)
Lemma reachable_snoc x y :
  reachable (es ++ [e]) x y ->
  reachable es x y
  \/ ((x = Edge.source e \/ reachable es x (Edge.source e))
      /\ (y = Edge.target e \/ reachable es (Edge.target e) y)).
Proof.
  induction 1 as [x y H|x y z _ IH1 _ IH2].
  - apply edge_step_snoc in H as [H|[-> ->]]; [left; apply t_step; exact H|right; auto].
  - destruct IH1 as [R1|[[H1|R1] [H1'|T1]]]; destruct IH2 as [R2|[[H2|R2] [H2'|T2]]];
      subst; close_path.
Qed.

Lemma acyclic_snoc : acyclic es -> acyclic (es ++ [e]).
Proof.
  intros Hac x Hx. apply reachable_snoc in Hx as [Hx|[[Hs|Rs] [Ht|Rt]]].
  - exact (Hac x Hx).
  - apply Hne. congruence.
  - apply Hnr. subst x. exact Rt.
  - apply Hnr. subst x. exact Rs.
  - apply Hnr. eapply t_trans; eassumption.
Qed.
End AddEdge.

Lemma reachable_reachable_in ns es x y :
  endpoints_present ns es -> reachable es x y -> reachable_in ns es x y.
Proof.
  intros Hep. induction 1 as [x y (e & He & Hs & Ht)|x y z _ IH1 _ IH2].
  - apply t_step. exists e. repeat split; auto. subst y. apply (Hep e He).
  - eapply t_trans; eassumption.
Qed.

Lemma addNode_invariants n st :
  graph_invariants (nodes st) (edges st) ->
  graph_invariants (nodes (addNode n st)) (edges (addNode n st)).
Proof.
  intros (Hep & Hsl & Hsw & Hac). simpl. split; [|auto].
  intros e He. destruct (Hep e He) as [Hs Ht].
  unfold node_ids. rewrite map_app. split; apply in_or_app; left; assumption.
Qed.

Lemma connect_invariants ns es c :
  graph_invariants ns es ->
  isValidConnection_returns c ns es true ->
  graph_invariants ns (addEdge c es).
Proof.
  intros (Hep & Hsl & Hsw & Hac) (fuel & Hv).
  apply isValidConnection_sound in Hv.
  assert (Hnrej : ~ rejected c ns es) by (intros Hr; apply Hv in Hr; discriminate).
  unfold rejected in Hnrej.
  assert (Hne : Connection.source c <> Connection.target c) by tauto.
  assert (Hno : ~ exists e, In e es /\ Edge.target e = Connection.target c
                             /\ Edge.targetHandle e = Connection.targetHandle c) by tauto.
  assert (HinS : In (Connection.source c) (node_ids ns)).
  { destruct (in_dec string_dec (Connection.source c) (node_ids ns)); tauto. }
  assert (HinT : In (Connection.target c) (node_ids ns)).
  { destruct (in_dec string_dec (Connection.target c) (node_ids ns)); tauto. }
  assert (Hnr : ~ reachable es (Connection.target c) (Connection.source c)).
  { intros Hr. apply Hnrej. right. right. right. right.
    apply reachable_reachable_in; assumption. }
  unfold addEdge.
  destruct (String.eqb (Connection.source c) "" || String.eqb (Connection.target c) "");
    [exact (conj Hep (conj Hsl (conj Hsw Hac)))|].
  match goal with |- context [connectionExists ?e' es] => set (e := e') end.
  destruct (connectionExists e es); [exact (conj Hep (conj Hsl (conj Hsw Hac)))|].
  split; [|split; [|split]].
  - intros e' He'. apply in_app_or in He' as [He'|[<-|[]]]; [apply Hep; exact He'|].
    split; assumption.
  - intros e' He'. apply in_app_or in He' as [He'|[<-|[]]]; [apply Hsl; exact He'|].
    exact Hne.
  - unfold single_writer. rewrite map_app. apply NoDup_app; [exact Hsw|constructor; [auto|constructor]|].
    intros a Ha [Hb|[]]. apply Hno. subst a.
    apply in_map_iff in Ha as (e' & Hk & He'). simpl in Hk.
    injection Hk as Ht Hh. eauto.
  - apply acyclic_snoc; assumption.
Qed.

Lemma edit_steps_invariants st0 st :
  graph_invariants (nodes st0) (edges st0) ->
  clos_refl_trans FlowState edit_step st0 st ->
  graph_invariants (nodes st) (edges st).
Proof.
  intros Hinv Hr. apply clos_rt_rt1n in Hr.
  induction Hr as [st0|st0 st1 st Hs _ IH]; [exact Hinv|].
  apply IH. destruct Hs as [st0 n|st0 c Hv].
  - apply addNode_invariants. exact Hinv.
  - apply connect_invariants; assumption.
Qed.

Lemma initialState_invariants : graph_invariants (nodes initialState) (edges initialState).
Proof.
  simpl. split; [|split; [|split]].
  - intros e [].
  - intros e [].
  - constructor.
  - intros x. apply reachable_nil.
Qed.

(** ** C2 *)

(** The store's [onConnect] commits whatever it is given: from the state
    with node ["a"] and no edges, which satisfies the invariants,
    [onConnect] of ["a" -> "a"] commits a self-loop. *)
Lemma onConnect_commits_self_loop :
  let st := mkFlowState [node_a] [] in
  graph_invariants (nodes st) (edges st)
  /\ ~ no_self_loop (edges (onConnect (Connection.mk "a" "a" None (Some "a")) st)).
Proof.
  simpl. split.
  - split; [|split; [|split]].
    + intros e [].
    + intros e [].
    + constructor.
    + intros x. apply reachable_nil.
  - intros H. vm_compute in H.
    apply (H (Edge.mk "reactflow__edge-a-aa" "a" "a" None (Some "a"))); [left; reflexivity|reflexivity].
Qed.

(** The validator never looks at handle ids: from a state with a
    [text_input] node ["s"] and a [display_result] node ["t"] and no edges,
    which satisfies invariants 1-4, [isValidConnection] accepts the
    connection ["s" -> "t"] into target handle ["x"], which [display_result]
    does not declare, and [onConnect] commits it. *)
Lemma validated_edge_undeclared_handle :
  let st := mkFlowState [Node.mk "s" "text_input" []; Node.mk "t" "display_result" []] [] in
  let c := Connection.mk "s" "t" None (Some "x") in
  graph_invariants (nodes st) (edges st) /\ handles_declared (nodes st) (edges st)
  /\ isValidConnection_returns c (nodes st) (edges st) true
  /\ ~ handles_declared (nodes (onConnect c st)) (edges (onConnect c st)).
Proof.
  intros st c. split; [|split; [|split]].
  - split; [|split; [|split]].
    + intros e [].
    + intros e [].
    + constructor.
    + intros x. apply reachable_nil.
  - intros e n hs [].
  - exists 5. vm_compute. reflexivity.
  - intros H.
    assert (Hin : In (Some "x") [@None string]).
    { apply (H (Edge.mk "reactflow__edge-s-tx" "s" "t" None (Some "x"))
               (Node.mk "t" "display_result" [])).
      - vm_compute. left. reflexivity.
      - right. left. reflexivity.
      - reflexivity.
      - reflexivity. }
    destruct Hin as [Hin|[]]. discriminate.
Qed.

(** C2 (counterexample): [onConnect] does not validate, so it commits a
    self-loop; and a connection the validator accepts may still enter a
    handle id the target's type does not declare, breaking invariant 4. *)
Lemma C2_unchecked_edges_committed :
  (let st := mkFlowState [node_a] [] in
   graph_invariants (nodes st) (edges st)
   /\ ~ no_self_loop (edges (onConnect (Connection.mk "a" "a" None (Some "a")) st)))
  /\ (let st := mkFlowState [Node.mk "s" "text_input" []; Node.mk "t" "display_result" []] [] in
      let c := Connection.mk "s" "t" None (Some "x") in
      graph_invariants (nodes st) (edges st) /\ handles_declared (nodes st) (edges st)
      /\ isValidConnection_returns c (nodes st) (edges st) true
      /\ ~ handles_declared (nodes (onConnect c st)) (edges (onConnect c st))).
Proof.
  split; [exact onConnect_commits_self_loop|exact validated_edge_undeclared_handle].
Qed.

(** C2 (amended): [onConnect] itself does not validate; every store state
    reached from the empty store by dropping nodes ([addNode]) and by
    committing, through [onConnect], connections that [isValidConnection]
    accepted on the current nodes and edges (the gate [page.tsx] installs),
    satisfies invariants 1-3 and the absence of self-loops: endpoints
    present, no self-loop, at most one edge per (target, targetHandle), no
    directed cycle. Invariant 4 (declared handle ids) is not maintained:
    see [C2_unchecked_edges_committed]. *)
Theorem gated_edits_preserve_invariants st :
  clos_refl_trans FlowState edit_step initialState st ->
  graph_invariants (nodes st) (edges st).
Proof.
  apply edit_steps_invariants. exact initialState_invariants.
Qed.

Lemma gated_edits_preserve_invariants_witness :
  let st := onConnect (Connection.mk "a" "b" None (Some "a"))
                      (addNode node_b (addNode node_a initialState)) in
  clos_refl_trans FlowState edit_step initialState st
  /\ graph_invariants (nodes st) (edges st).
Proof.
  intros st.
  assert (H : clos_refl_trans FlowState edit_step initialState st).
  { eapply rt_trans; [apply rt_step; apply edit_addNode|].
    eapply rt_trans; [apply rt_step; apply edit_addNode|].
    apply rt_step. apply edit_connect. exists 5. vm_compute. reflexivity. }
  split; [exact H|]. apply gated_edits_preserve_invariants. exact H.
Defined.

(** ** Visits of [checkForCycles] on the diamond chain *)

Lemma xs_eqb a b : String.eqb (xs a) (xs b) = Nat.eqb a b.
Proof.
  revert b. induction a as [|a IH]; intros [|b]; simpl; auto.
Qed.

Lemma vid_eqb a b : String.eqb (vid a) (vid b) = Nat.eqb a b.
Proof. apply xs_eqb. Qed.

Lemma plain_node_id x : Node.id (plain_node x) = x.
Proof. reflexivity. Qed.

Lemma checkForCycles_visits_diamond_step ns es s i f T :
  getOutgoers (plain_node (vid i)) ns es = [plain_node (lid i); plain_node (rid i)] ->
  getOutgoers (plain_node (lid i)) ns es = [plain_node (vid (S i))] ->
  getOutgoers (plain_node (rid i)) ns es = [plain_node (vid (S i))] ->
  String.eqb (lid i) (Node.id s) = false ->
  String.eqb (rid i) (Node.id s) = false ->
  String.eqb (vid (S i)) (Node.id s) = false ->
  checkForCycles_visits f (plain_node (vid (S i))) s ns es = Some (false, T) ->
  checkForCycles_visits (S (S f)) (plain_node (vid i)) s ns es
  = Some (false, vid i :: ((lid i :: (T ++ [])) ++ (rid i :: (T ++ [])) ++ [])%list).
Proof.
  intros H1 H2 H3 E1 E2 E3 HT.
  cbn [checkForCycles_visits]. rewrite H1.
  cbn [existsb some_visits]. rewrite !plain_node_id, E1, E2. cbn [orb].
  rewrite H2, H3. cbn [existsb]. rewrite !plain_node_id, E3. cbn [orb].
  cbn [some_visits]. rewrite HT. reflexivity.
Qed.

Lemma checkForCycles_visits_diamond_last ns es s k :
  getOutgoers (plain_node (vid k)) ns es = [] ->
  checkForCycles_visits 1 (plain_node (vid k)) s ns es = Some (false, [vid k]).
Proof.
  intros H. cbn [checkForCycles_visits]. rewrite H. reflexivity.
Qed.

Lemma lid_eqb a b : String.eqb (lid a) (lid b) = Nat.eqb a b.
Proof. apply xs_eqb. Qed.

Lemma rid_eqb a b : String.eqb (rid a) (rid b) = Nat.eqb a b.
Proof. apply xs_eqb. Qed.

Lemma vid_lid a b : String.eqb (vid a) (lid b) = false.
Proof. reflexivity. Qed.
Lemma vid_rid a b : String.eqb (vid a) (rid b) = false.
Proof. reflexivity. Qed.
Lemma lid_vid a b : String.eqb (lid a) (vid b) = false.
Proof. reflexivity. Qed.
Lemma lid_rid a b : String.eqb (lid a) (rid b) = false.
Proof. reflexivity. Qed.
Lemma rid_vid a b : String.eqb (rid a) (vid b) = false.
Proof. reflexivity. Qed.
Lemma rid_lid a b : String.eqb (rid a) (lid b) = false.
Proof. reflexivity. Qed.

Ltac chain_ids :=
  cbn [filter existsb map Node.id plain_node Edge.source Edge.target plain_edge];
  rewrite ?vid_eqb, ?lid_eqb, ?rid_eqb, ?vid_lid, ?vid_rid, ?lid_vid, ?lid_rid,
          ?rid_vid, ?rid_lid;
  cbn [orb].

Lemma diamond_edges_from_vid k i :
  filter (fun e => String.eqb (Edge.source e) (vid i)) (diamond_edges k)
  = if Nat.ltb i k then [plain_edge (vid i) (lid i); plain_edge (vid i) (rid i)] else [].
Proof.
  induction k as [|k IH]; [reflexivity|].
  cbn [diamond_edges]. rewrite filter_app, IH. chain_ids.
  destruct (Nat.eqb_spec k i) as [Hki|Hki];
    destruct (Nat.ltb_spec i k), (Nat.ltb_spec i (S k)); try lia; subst; reflexivity.
Qed.

Lemma diamond_edges_from_lid k i :
  filter (fun e => String.eqb (Edge.source e) (lid i)) (diamond_edges k)
  = if Nat.ltb i k then [plain_edge (lid i) (vid (S i))] else [].
Proof.
  induction k as [|k IH]; [reflexivity|].
  cbn [diamond_edges]. rewrite filter_app, IH. chain_ids.
  destruct (Nat.eqb_spec k i) as [Hki|Hki];
    destruct (Nat.ltb_spec i k), (Nat.ltb_spec i (S k)); try lia; subst; reflexivity.
Qed.

Lemma diamond_edges_from_rid k i :
  filter (fun e => String.eqb (Edge.source e) (rid i)) (diamond_edges k)
  = if Nat.ltb i k then [plain_edge (rid i) (vid (S i))] else [].
Proof.
  induction k as [|k IH]; [reflexivity|].
  cbn [diamond_edges]. rewrite filter_app, IH. chain_ids.
  destruct (Nat.eqb_spec k i) as [Hki|Hki];
    destruct (Nat.ltb_spec i k), (Nat.ltb_spec i (S k)); try lia; subst; reflexivity.
Qed.

Lemma diamond_nodes_lr k i :
  filter (fun n => existsb (String.eqb (Node.id n)) [lid i; rid i]) (diamond_nodes k)
  = if Nat.ltb i k then [plain_node (lid i); plain_node (rid i)] else [].
Proof.
  induction k as [|k IH]; [reflexivity|].
  cbn [diamond_nodes]. rewrite filter_app, IH. chain_ids.
  destruct (Nat.eqb_spec k i) as [Hki|Hki];
    destruct (Nat.ltb_spec i k), (Nat.ltb_spec i (S k)); try lia; subst; reflexivity.
Qed.

Lemma diamond_nodes_v k j :
  filter (fun n => existsb (String.eqb (Node.id n)) [vid j]) (diamond_nodes k)
  = if Nat.leb j k then [plain_node (vid j)] else [].
Proof.
  induction k as [|k IH].
  - cbn [diamond_nodes]. chain_ids. destruct j; reflexivity.
  - cbn [diamond_nodes]. rewrite filter_app, IH. chain_ids.
    destruct (Nat.eqb_spec (S k) j) as [Hkj|Hkj];
      destruct (Nat.leb_spec j k), (Nat.leb_spec j (S k)); try lia; subst; reflexivity.
Qed.

Lemma filter_none_listed (ns : list Node.t) :
  filter (fun n => existsb (String.eqb (Node.id n)) []) ns = [].
Proof.
  induction ns; simpl; auto.
Qed.

Lemma diamond_outgoers_vid k i :
  i < k -> getOutgoers (plain_node (vid i)) (diamond_nodes k) (diamond_edges k)
           = [plain_node (lid i); plain_node (rid i)].
Proof.
  intros Hi. unfold getOutgoers. rewrite plain_node_id, diamond_edges_from_vid.
  apply Nat.ltb_lt in Hi as Hb. rewrite Hb. cbn [map Edge.target plain_edge].
  rewrite diamond_nodes_lr, Hb. reflexivity.
Qed.

Lemma diamond_outgoers_last k :
  getOutgoers (plain_node (vid k)) (diamond_nodes k) (diamond_edges k) = [].
Proof.
  unfold getOutgoers. rewrite plain_node_id, diamond_edges_from_vid, Nat.ltb_irrefl.
  apply filter_none_listed.
Qed.

Lemma diamond_outgoers_lid k i :
  i < k -> getOutgoers (plain_node (lid i)) (diamond_nodes k) (diamond_edges k)
           = [plain_node (vid (S i))].
Proof.
  intros Hi. unfold getOutgoers. rewrite plain_node_id, diamond_edges_from_lid.
  apply Nat.ltb_lt in Hi as Hb. rewrite Hb. cbn [map Edge.target plain_edge].
  rewrite diamond_nodes_v. apply Nat.leb_le in Hi as ->. reflexivity.
Qed.

Lemma diamond_outgoers_rid k i :
  i < k -> getOutgoers (plain_node (rid i)) (diamond_nodes k) (diamond_edges k)
           = [plain_node (vid (S i))].
Proof.
  intros Hi. unfold getOutgoers. rewrite plain_node_id, diamond_edges_from_rid.
  apply Nat.ltb_lt in Hi as Hb. rewrite Hb. cbn [map Edge.target plain_edge].
  rewrite diamond_nodes_v. apply Nat.leb_le in Hi as ->. reflexivity.
Qed.

Lemma diamond_visits_from k j :
  forall i, i + j = k ->
  exists T, checkForCycles_visits (2 * j + 1) (plain_node (vid i)) src_node
                                  (diamond_nodes k) (diamond_edges k) = Some (false, T)
            /\ count_occ string_dec T (vid k) = 2 ^ j.
Proof.
  induction j as [|j IH]; intros i Hij.
  - replace i with k by lia. exists [vid k]. split.
    + apply checkForCycles_visits_diamond_last. apply diamond_outgoers_last.
    + rewrite count_occ_cons_eq by reflexivity. reflexivity.
  - destruct (IH (S i)) as (T & HT & Hc); [lia|].
    exists (vid i :: ((lid i :: (T ++ [])) ++ (rid i :: (T ++ [])) ++ [])%list).
    split.
    + replace (2 * S j + 1) with (S (S (2 * j + 1))) by lia.
      apply checkForCycles_visits_diamond_step;
        [apply diamond_outgoers_vid; lia|apply diamond_outgoers_lid; lia
        |apply diamond_outgoers_rid; lia|reflexivity|reflexivity|reflexivity|exact HT].
    + rewrite !app_nil_r.
      rewrite count_occ_cons_neq by (intros H; apply (f_equal (String.eqb (vid i))) in H;
                                     rewrite String.eqb_refl, vid_eqb in H;
                                     symmetry in H; apply Nat.eqb_eq in H; lia).
      rewrite count_occ_app, !count_occ_cons_neq by discriminate.
      rewrite Hc. simpl. lia.
Qed.

Lemma some_visits_fst {A : Type} (f : A -> option (bool * list string)) (g : A -> option bool) l :
  (forall x, In x l -> g x = option_map fst (f x)) ->
  some_opt g l = option_map fst (some_visits f l).
Proof.
  induction l as [|x l IH]; simpl; intros Hfg; [reflexivity|].
  rewrite (Hfg x (or_introl eq_refl)).
  destruct (f x) as [[[|] t]|]; simpl; try reflexivity.
  rewrite IH by auto. destruct (some_visits f l) as [[b t']|]; reflexivity.
Qed.

(** The instrumented check returns what [checkForCycles] returns. *)
Lemma checkForCycles_visits_fst fuel t s ns es :
  checkForCycles fuel t s ns es = option_map fst (checkForCycles_visits fuel t s ns es).
Proof.
  revert t. induction fuel as [|fuel IH]; intros t; [reflexivity|].
  simpl. destruct (existsb _ _); [reflexivity|].
  rewrite (some_visits_fst (fun o => checkForCycles_visits fuel o s ns es)) by (intros; apply IH).
  destruct (some_visits _ _) as [[b tr]|]; reflexivity.
Qed.

(** ** C3 *)

(** C3 (counterexample): on one diamond ["v" -> "l" -> "vx"],
    ["v" -> "r" -> "vx"], the check from ["v"] for a source outside the
    graph invokes itself twice on ["vx"]. *)
Lemma C3_diamond_visits_twice :
  exists T, checkForCycles_visits 3 (plain_node (vid 0)) src_node
                                  (diamond_nodes 1) (diamond_edges 1) = Some (false, T)
            /\ count_occ string_dec T (vid 1) = 2.
Proof.
  eexists. split; [vm_compute; reflexivity|]. vm_compute. reflexivity.
Qed.

(** C3 (amended): [checkForCycles] keeps no visited set: on a chain of [k]
    diamonds, the check from the top node for a source outside the chain
    returns false after invoking itself [2^k] times on the bottom node. *)
Theorem checkForCycles_revisits_diamond_chain k :
  checkForCycles (2 * k + 1) (plain_node (vid 0)) src_node (diamond_nodes k) (diamond_edges k)
  = Some false
  /\ exists T, checkForCycles_visits (2 * k + 1) (plain_node (vid 0)) src_node
                                     (diamond_nodes k) (diamond_edges k) = Some (false, T)
               /\ count_occ string_dec T (vid k) = 2 ^ k.
Proof.
  destruct (diamond_visits_from k k 0 eq_refl) as (T & HT & Hc).
  split.
  - rewrite checkForCycles_visits_fst, HT. reflexivity.
  - eauto.
Qed.

(** ** C6 *)

(** C6 (spec-modelled block): the Math Operation block configured with
    divide, run with a numeric input [b] equal to 0, yields a
    BlockExecutionError and no value. *)
Theorem math_divide_by_zero_error inputs b :
  lookup_input inputs "b" = Some (BNum b) -> (b == 0)%Q ->
  exists msg, math_run divide inputs = mkBlockResult None (Some (BlockExecutionError msg)).
Proof.
  intros Hb Hz. unfold math_run. rewrite Hb.
  destruct (lookup_input inputs "a") as [[a|s]|]; eauto.
  apply Qeq_bool_iff in Hz. rewrite Hz. eauto.
Qed.

Lemma math_divide_by_zero_error_witness :
  lookup_input [("a", BNum 10); ("b", BNum 0)] "b" = Some (BNum 0) /\ (0 == 0)%Q
  /\ exists msg, math_run divide [("a", BNum 10); ("b", BNum 0)]
                 = mkBlockResult None (Some (BlockExecutionError msg)).
Proof.
  assert (H1 : lookup_input [("a", BNum 10); ("b", BNum 0)] "b" = Some (BNum 0)) by reflexivity.
  assert (H2 : (0 == 0)%Q) by reflexivity.
  split; [exact H1|]. split; [exact H2|]. exact (math_divide_by_zero_error _ _ H1 H2).
Defined.

(** ** C7 *)

(** C7: the Text Join node's current separator is [config.separator] when
    that is a string, and a single space otherwise (no config, no
    separator, or a separator of another type). *)
Theorem textJoin_separator_default data :
  (forall s, (exists config, get_prop data "config" = JObj config
                             /\ get_prop config "separator" = JStr s) ->
             currentSeparator data = s)
  /\ ((~ exists config s, get_prop data "config" = JObj config
                          /\ get_prop config "separator" = JStr s) ->
      currentSeparator data = " ").
Proof.
  unfold currentSeparator. split.
  - intros s (config & Hc & Hs). rewrite Hc, Hs. reflexivity.
  - intros Hn. destruct (get_prop data "config") as [| | | | |config]; try reflexivity.
    destruct (get_prop config "separator") eqn:Hs; try reflexivity.
    exfalso. apply Hn. eauto.
Qed.

(** ** C8 *)

(** C8: validation is a pure predicate over the nodes and edges it is
    given: a connection attempt through the gate never changes the nodes,
    and changes the store at all only by committing, through [onConnect],
    a connection the validator accepted. *)
Theorem connectAttempt_frame fuel c st :
  nodes (connectAttempt fuel c st) = nodes st
  /\ (connectAttempt fuel c st = st
      \/ (isValidConnection fuel c (nodes st) (edges st) = Some true
          /\ connectAttempt fuel c st = onConnect c st)).
Proof.
  unfold connectAttempt.
  destruct (isValidConnection fuel c (nodes st) (edges st)) as [[|]|]; simpl; auto.
Qed.

(** ** C9 *)

Lemma get_set_prop o k k' v :
  get_prop (set_prop o k v) k' = if String.eqb k' k then v else get_prop o k'.
Proof.
  induction o as [|[k0 v0] o IH]; simpl.
  - destruct (String.eqb k' k); reflexivity.
  - destruct (String.eqb k k0) eqn:E; simpl.
    + apply String.eqb_eq in E. subst k0. destruct (String.eqb k' k); reflexivity.
    + rewrite IH. destruct (String.eqb k' k0) eqn:E'; [|reflexivity].
      apply String.eqb_eq in E'. subst k0.
      destruct (String.eqb k' k) eqn:E''; [|reflexivity].
      apply String.eqb_eq in E''. subst. rewrite String.eqb_refl in E. discriminate.
Qed.

(** Reading a property of a spread [{ ...o, ...p }]: the patch's value when
    the patch has the property, the old one otherwise. *)
Lemma get_prop_spread o p k :
  NoDup (map fst p) ->
  get_prop (spread o p) k = if existsb (String.eqb k) (map fst p) then get_prop p k else get_prop o k.
Proof.
  unfold spread. revert o. induction p as [|[k0 v0] p IH]; intros o Hnd; simpl; [reflexivity|].
  inversion Hnd as [|? ? Hnin Hnd']; subst.
  rewrite IH by exact Hnd'. rewrite get_set_prop.
  destruct (String.eqb k k0) eqn:E; simpl; [|reflexivity].
  apply String.eqb_eq in E. subst k0.
  destruct (existsb (String.eqb k) (map fst p)) eqn:Ex; [|reflexivity].
  exfalso. apply Hnin. apply existsb_exists in Ex as (k' & Hk' & Heq).
  apply String.eqb_eq in Heq. subst. exact Hk'.
Qed.

(** C9: [updateNodeData(id, data)] leaves the edges, the number and the
    order of the nodes unchanged; a node whose id matches gets the spread
    of its old data with the patch, every other node is unchanged; when no
    node has the id the node list is unchanged. *)
Theorem updateNodeData_frame id data st :
  edges (updateNodeData id data st) = edges st
  /\ List.length (nodes (updateNodeData id data st)) = List.length (nodes st)
  /\ (forall i n, nth_error (nodes st) i = Some n ->
        nth_error (nodes (updateNodeData id data st)) i
        = Some (if String.eqb (Node.id n) id
                then Node.mk (Node.id n) (Node.type n) (spread (Node.data n) data)
                else n))
  /\ (~ In id (node_ids (nodes st)) -> nodes (updateNodeData id data st) = nodes st).
Proof.
  simpl. split; [reflexivity|]. split; [apply length_map|]. split.
  - intros i n H. rewrite nth_error_map, H. reflexivity.
  - intros Hn. rewrite <- (map_id (nodes st)) at 2. apply map_ext_in.
    intros n Hin. destruct (String.eqb (Node.id n) id) eqn:E; [|reflexivity].
    exfalso. apply Hn. apply String.eqb_eq in E. subst id. apply in_map. exact Hin.
Qed.

(** ** C10 *)

Lemma tag_free_empty : tag_free EmptyString.
Proof.
  intros pre suf H. destruct pre; [|discriminate]. simpl in H. subst. reflexivity.
Qed.

Lemma tag_free_cons c o :
  tag_free o -> (Ascii.eqb c "<" = true -> index_of_gt o = None) -> tag_free (String c o).
Proof.
  intros Ho Hc pre suf H. destruct pre as [|c' pre]; simpl in H.
  - subst suf. simpl. destruct (Ascii.eqb c "<") eqn:E; [|reflexivity].
    rewrite (Hc eq_refl). reflexivity.
  - injection H as _ H. exact (Ho pre suf H).
Qed.

Lemma skip_length n s : String.length (skip n s) <= String.length s.
Proof.
  revert s. induction n as [|n IH]; intros [|c s]; simpl; auto.
Qed.

Lemma skip_no_gt n s : index_of_gt s = None -> index_of_gt (skip n s) = None.
Proof.
  revert s. induction n as [|n IH]; intros [|c s] H; simpl; auto.
  apply IH. simpl in H. destruct (Ascii.eqb c ">"); [discriminate|].
  destruct (index_of_gt s); [discriminate|reflexivity].
Qed.

(** Removing matches never introduces a [">"]. *)
Lemma replace_global_no_gt m fuel s :
  index_of_gt s = None -> index_of_gt (replace_global m fuel s) = None.
Proof.
  revert s. induction fuel as [|fuel IH]; intros s H; [exact H|].
  destruct s as [|c s']; [reflexivity|]. simpl.
  assert (Hc : Ascii.eqb c ">" = false /\ index_of_gt s' = None).
  { simpl in H. destruct (Ascii.eqb c ">"); [discriminate|].
    destruct (index_of_gt s'); [discriminate|auto]. }
  destruct Hc as [Hc Hs'].
  destruct (m (String c s')) as [[|n]|].
  - simpl. rewrite Hc, IH by exact Hs'. reflexivity.
  - apply IH. apply skip_no_gt. exact Hs'.
  - simpl. rewrite Hc, IH by exact Hs'. reflexivity.
Qed.

Lemma replace_global_tag_free fuel s :
  String.length s <= fuel -> tag_free (replace_global tag_match fuel s).
Proof.
  revert s. induction fuel as [|fuel IH]; intros s Hlen.
  - destruct s; [apply tag_free_empty|simpl in Hlen; lia].
  - destruct s as [|c s']; [apply tag_free_empty|]. simpl in Hlen.
    cbn [replace_global].
    destruct (tag_match (String c s')) as [[|n]|] eqn:Ht.
    + simpl in Ht. destruct (Ascii.eqb c "<"); [|discriminate].
      destruct (index_of_gt s'); simpl in Ht; [injection Ht; lia|discriminate].
    + apply IH. cbn [skip]. pose proof (skip_length n s'). lia.
    + apply tag_free_cons; [apply IH; lia|].
      intros Hc. simpl in Ht. rewrite Hc in Ht.
      apply replace_global_no_gt.
      destruct (index_of_gt s'); [discriminate|reflexivity].
Qed.

Lemma sanitize_tag_free raw : tag_free (sanitize raw).
Proof.
  unfold sanitize, replace_all. apply replace_global_tag_free. lia.
Qed.

(** C10: a change event on a Text Input node either commits nothing (the
    early return past [max_length]) or commits [sanitize raw], the typed
    text with the script blocks and then every remaining tag removed;
    no position of a sanitized value starts a match of [/<[^>]*>/]; and
    sanitizing changes some inputs. *)
Theorem textInput_commits_sanitized id maxLength raw st :
  ((snd (handleChange maxLength raw) = None /\ handleChange_store id maxLength raw st = st)
   \/ (snd (handleChange maxLength raw) = Some (sanitize raw)
       /\ handleChange_store id maxLength raw st
          = updateNodeData id [("value", JStr (sanitize raw))] st))
  /\ tag_free (sanitize raw)
  /\ (exists raw', sanitize raw' <> raw').
Proof.
  split; [|split; [apply sanitize_tag_free|exists "<b>"; vm_compute; discriminate]].
  unfold handleChange_store, handleChange.
  destruct maxLength as [m|]; [|right; auto].
  destruct (negb (Z.eqb m 0) && Z.geb _ m); [|right; auto].
  destruct (Z.gtb _ m); [left|right]; auto.
Qed.

(** * Further properties of the store and the nodes *)

(** ** Connections: [onConnect], [addEdge], [isValidConnection] *)

Lemma handle_eqb_refl h : handle_eqb h h = true.
Proof. apply handle_eqb_eq. reflexivity. Qed.

Lemma connectionExists_self e es : connectionExists e (es ++ [e]) = true.
Proof.
  unfold connectionExists. rewrite existsb_app. apply orb_true_iff. right. simpl.
  rewrite !String.eqb_refl, !handle_eqb_refl. reflexivity.
Qed.

(** [addEdge] appends at most the one edge built from the connection, and a
    second [addEdge] of the same connection changes nothing. *)
Theorem addEdge_appends_once c es :
  (addEdge c es = es
   \/ addEdge c es = (es ++ [Edge.mk (getEdgeId c) (Connection.source c) (Connection.target c)
                                     (Connection.sourceHandle c) (Connection.targetHandle c)])%list)
  /\ addEdge c (addEdge c es) = addEdge c es.
Proof.
  unfold addEdge.
  destruct (String.eqb (Connection.source c) "" || String.eqb (Connection.target c) "") eqn:E.
  - auto.
  - destruct (connectionExists _ es) eqn:Ex; cbn iota beta.
    + try rewrite E; rewrite ?Ex; auto.
    + try rewrite E; rewrite connectionExists_self; auto.
Qed.

Lemma falsy_handle_iff h : falsy_handle h = true <-> h = None \/ h = Some "".
Proof.
  destruct h as [s|]; simpl; split; auto.
  - intros H. apply String.eqb_eq in H. subst. auto.
  - intros [H|H]; [discriminate|]. injection H as ->. reflexivity.
Qed.

(** In a state the canvas reaches from the empty store (its edges come from
    connections, so their handles are [string | null]), a connection the
    validator accepts, between non-empty ids and with no target handle [""]
    around, is committed by [onConnect] as one new edge at the end of the
    list; from then on every connection into the same (target, targetHandle)
    is rejected. *)
Theorem accepted_connection_committed fuel c st :
  clos_refl_trans FlowState ui_step initialState st ->
  isValidConnection fuel c (nodes st) (edges st) = Some true ->
  Connection.source c <> "" -> Connection.target c <> "" ->
  Connection.targetHandle c <> Some "" ->
  (forall e, In e (edges st) -> Edge.targetHandle e <> Some "") ->
  edges (onConnect c st)
  = (edges st ++ [Edge.mk (getEdgeId c) (Connection.source c) (Connection.target c)
                          (Connection.sourceHandle c) (Connection.targetHandle c)])%list
  /\ (forall fuel' c', Connection.target c' = Connection.target c ->
        Connection.targetHandle c' = Connection.targetHandle c ->
        isValidConnection fuel' c' (nodes st) (edges (onConnect c st)) = Some false).
Proof.
  intros _ Hv Hs Ht Hh Hes.
  assert (Hfree : existsb (fun edge => String.eqb (Edge.target edge) (Connection.target c)
                   && handle_eqb (Edge.targetHandle edge) (Connection.targetHandle c)) (edges st)
                  = false).
  { unfold isValidConnection in Hv. destruct (String.eqb _ _); [discriminate|].
    destruct (existsb _ _); [discriminate|reflexivity]. }
  assert (Hadd : edges (onConnect c st)
    = (edges st ++ [Edge.mk (getEdgeId c) (Connection.source c) (Connection.target c)
                            (Connection.sourceHandle c) (Connection.targetHandle c)])%list).
  { simpl. unfold addEdge.
    apply String.eqb_neq in Hs. apply String.eqb_neq in Ht. rewrite Hs, Ht. simpl.
    match goal with |- (if connectionExists ?e _ then _ else _) = _ => set (ne := e) end.
    destruct (connectionExists ne (edges st)) eqn:Ex; [|reflexivity].
    exfalso. unfold connectionExists in Ex. apply existsb_exists in Ex as (el & Hel & Hm).
    apply andb_true_iff in Hm as [Hm Hth]. apply andb_true_iff in Hm as [Hm _].
    apply andb_true_iff in Hm as [_ Htg]. simpl in Htg, Hth.
    assert (Heq : handle_eqb (Edge.targetHandle el) (Connection.targetHandle c) = true).
    { apply orb_true_iff in Hth as [Hth|Hth]; [exact Hth|].
      apply andb_true_iff in Hth as [H1 H2].
      apply falsy_handle_iff in H1 as [H1|H1]; [|exfalso; exact (Hes el Hel H1)].
      apply falsy_handle_iff in H2 as [H2|H2]; [|exfalso; exact (Hh H2)].
      rewrite H1, H2. reflexivity. }
    assert (Hin : existsb (fun edge => String.eqb (Edge.target edge) (Connection.target c)
                   && handle_eqb (Edge.targetHandle edge) (Connection.targetHandle c)) (edges st)
                  = true).
    { apply existsb_exists. exists el. split; [exact Hel|]. rewrite Htg, Heq. reflexivity. }
    congruence. }
  split; [exact Hadd|].
  intros fuel' c' Htc Hhc. rewrite Hadd. unfold isValidConnection.
  destruct (String.eqb (Connection.source c') (Connection.target c')); [reflexivity|].
  rewrite existsb_app. simpl. rewrite Htc, Hhc, String.eqb_refl, handle_eqb_refl.
  rewrite orb_true_r. reflexivity.
Qed.








(** On an acyclic edge list, [checkForCycles] returns within recursion
    depth [|nodes| + 1], and every larger depth gives the same answer: the
    recursion depth of the JavaScript call is bounded by the node count. *)
Theorem checkForCycles_depth_bound ns es t s :
  acyclic es ->
  exists b, checkForCycles (S (List.length ns)) t s ns es = Some b
            /\ forall fuel, S (List.length ns) <= fuel -> checkForCycles fuel t s ns es = Some b.
Proof.
  intros Hac. destruct (checkForCycles_total ns es t s Hac) as (b & Hb).
  exists b. split; [exact Hb|]. intros fuel Hle. eapply checkForCycles_mono; eassumption.
Qed.

Lemma checkForCycles_depth_bound_witness :
  acyclic [edge_ab]
  /\ exists b, checkForCycles 3 node_a node_b [node_a; node_b] [edge_ab] = Some b
               /\ forall fuel, 3 <= fuel -> checkForCycles fuel node_a node_b [node_a; node_b] [edge_ab] = Some b.
Proof.
  assert (Hac : acyclic [edge_ab]).
  { apply (ranked_acyclic (fun x => if String.eqb x "a" then 0 else 1)). vm_compute. reflexivity. }
  split; [exact Hac|]. exact (checkForCycles_depth_bound [node_a; node_b] [edge_ab] node_a node_b Hac).
Defined.

Lemma accepted_connection_committed_witness :
  let st := onDrop "display_result" true "b" (onDrop "text_input" true "a" initialState) in
  let c := Connection.mk "a" "b" None None in
  (clos_refl_trans FlowState ui_step initialState st
   /\ isValidConnection 5 c (nodes st) (edges st) = Some true
   /\ Connection.source c <> "" /\ Connection.target c <> ""
   /\ Connection.targetHandle c <> Some ""
   /\ (forall e, In e (edges st) -> Edge.targetHandle e <> Some ""))
  /\ edges (onConnect c st)
     = (edges st ++ [Edge.mk (getEdgeId c) (Connection.source c) (Connection.target c)
                             (Connection.sourceHandle c) (Connection.targetHandle c)])%list.
Proof.
  intros st c.
  assert (H0 : clos_refl_trans FlowState ui_step initialState st).
  { apply rt_trans with (onDrop "text_input" true "a" initialState);
      apply rt_step; apply ui_drop. }
  assert (H1 : isValidConnection 5 c (nodes st) (edges st) = Some true) by (vm_compute; reflexivity).
  assert (H2 : Connection.source c <> "") by discriminate.
  assert (H3 : Connection.target c <> "") by discriminate.
  assert (H4 : Connection.targetHandle c <> Some "") by discriminate.
  assert (H5 : forall e, In e (edges st) -> Edge.targetHandle e <> Some "") by (intros e []).
  split; [exact (conj H0 (conj H1 (conj H2 (conj H3 (conj H4 H5)))))|].
  exact (proj1 (accepted_connection_committed 5 c st H0 H1 H2 H3 H4 H5)).
Defined.

(** ** Change handlers and the editing session *)

Lemma removes_id_current {A} (changes : list (Change A)) i :
  existsb is_remove
    (filter (fun c => match change_id c with Some j => String.eqb j i | None => false end) changes)
  = removes_id changes i.
Proof.
  unfold removes_id. induction changes as [|c cs IH]; [reflexivity|].
  destruct c; simpl; try (destruct (String.eqb _ i)); simpl; rewrite ?IH; reflexivity.
Qed.

Lemma fold_left_filter {A} (f : list A -> A -> list A) (b : A -> bool) l :
  (forall res x, f res x = if b x then res else (res ++ [x])%list) ->
  fold_left f l [] = filter (fun x => negb (b x)) l.
Proof.
  intros Hf. change (filter (fun x => negb (b x)) l) with ([] ++ filter (fun x => negb (b x)) l)%list.
  generalize (@nil A) as res. induction l as [|x l IH]; intros res; simpl;
    [rewrite app_nil_r; reflexivity|].
  rewrite Hf, IH. destruct (b x); simpl; [reflexivity|]. rewrite <- app_assoc. reflexivity.
Qed.

Lemma applyChanges_filter {A} (id_of : A -> string) changes elements :
  forallb adds_nothing changes = true ->
  applyChanges id_of changes elements
  = filter (fun x => negb (removes_id changes (id_of x))) elements.
Proof.
  intros Hna. unfold applyChanges.
  assert (Hr : existsb is_reset changes = false).
  { apply not_true_iff_false. intros H. apply existsb_exists in H as (c & Hc & Hrc).
    rewrite forallb_forall in Hna. specialize (Hna c Hc). destruct c; discriminate. }
  assert (Ha : flat_map (fun c => match c with ChangeAdd item => [item] | _ => [] end) changes
               = []).
  { clear Hr. induction changes as [|c cs IH]; [reflexivity|].
    simpl in Hna |- *. apply andb_true_iff in Hna as [Hc Hcs].
    rewrite (IH Hcs). destruct c; try discriminate; reflexivity. }
  rewrite Hr, Ha. apply (fold_left_filter _ (fun x => removes_id changes (id_of x))).
  intros res x. rewrite <- removes_id_current.
  match goal with
  |- (match ?cc with [] => _ | _ :: _ => _ end) = _ => destruct cc; reflexivity
  end.
Qed.

Lemma edge_step_incl es es' x y : incl es es' -> edge_step es x y -> edge_step es' x y.
Proof. intros Hi (e & He & Hs & Ht). exists e. auto. Qed.

Lemma reachable_incl es es' x y : incl es es' -> reachable es x y -> reachable es' x y.
Proof.
  intros Hi. induction 1 as [x y H|x y z _ IH1 _ IH2].
  - apply t_step. eapply edge_step_incl; eassumption.
  - eapply t_trans; eassumption.
Qed.

Lemma NoDup_map_filter {A B} (f : A -> B) (p : A -> bool) l :
  NoDup (map f l) -> NoDup (map f (filter p l)).
Proof.
  induction l as [|x l IH]; simpl; intros H; [constructor|].
  inversion H as [|? ? Hn Hnd]; subst.
  destruct (p x); simpl; [|auto]. constructor; [|auto].
  intros Hin. apply Hn. apply in_map_iff in Hin as (y & Hy & Hiny).
  apply filter_In in Hiny as [Hiny _]. rewrite <- Hy. apply in_map. exact Hiny.
Qed.

Lemma filter_edges_invariants ns es p :
  graph_invariants ns es -> graph_invariants ns (filter p es).
Proof.
  intros (Hep & Hsl & Hsw & Hac).
  split; [|split; [|split]].
  - intros e He. apply filter_In in He as [He _]. exact (Hep e He).
  - intros e He. apply filter_In in He as [He _]. exact (Hsl e He).
  - apply NoDup_map_filter. exact Hsw.
  - intros x Hx. apply (Hac x). eapply reachable_incl; [|exact Hx].
    intros e He. apply filter_In in He as [He _]. exact He.
Qed.

(** An edge change that only selects or removes edges keeps exactly the
    edges, in order, whose id no change removes; it keeps the nodes and the
    invariants of the graph. *)
Theorem onEdgesChange_removal_keeps_invariants changes st :
  forallb adds_nothing changes = true ->
  nodes (onEdgesChange changes st) = nodes st
  /\ edges (onEdgesChange changes st)
     = filter (fun e => negb (removes_id changes (Edge.id e))) (edges st)
  /\ (graph_invariants (nodes st) (edges st) ->
      graph_invariants (nodes (onEdgesChange changes st)) (edges (onEdgesChange changes st))).
Proof.
  intros Hna. simpl. rewrite applyChanges_filter by exact Hna.
  split; [reflexivity|]. split; [reflexivity|]. apply filter_edges_invariants.
Qed.

Lemma onEdgesChange_removal_keeps_invariants_witness :
  let changes := [ChangeRemove "a-b"; ChangeSelect "x" true] in
  let st := mkFlowState [node_a; node_b] [edge_ab] in
  forallb adds_nothing changes = true
  /\ nodes (onEdgesChange changes st) = nodes st
  /\ edges (onEdgesChange changes st)
     = filter (fun e => negb (removes_id changes (Edge.id e))) (edges st)
  /\ (graph_invariants (nodes st) (edges st) ->
      graph_invariants (nodes (onEdgesChange changes st)) (edges (onEdgesChange changes st))).
Proof.
  intros changes st.
  assert (H : forallb adds_nothing changes = true) by reflexivity.
  split; [exact H|]. exact (onEdgesChange_removal_keeps_invariants changes st H).
Defined.

(** A node change that removes the id [x] and adds nothing drops every node
    with that id but keeps the edges: an edge at [x] is left dangling, and
    the graph no longer has all its edges' endpoints. *)
Theorem onNodesChange_remove_leaves_dangling changes st x e :
  forallb adds_nothing changes = true ->
  In (ChangeRemove x) changes ->
  In e (edges st) -> Edge.source e = x \/ Edge.target e = x ->
  edges (onNodesChange changes st) = edges st
  /\ ~ In x (node_ids (nodes (onNodesChange changes st)))
  /\ ~ endpoints_present (nodes (onNodesChange changes st)) (edges (onNodesChange changes st)).
Proof.
  intros Hna Hrm He Hx.
  assert (Hnx : ~ In x (node_ids (nodes (onNodesChange changes st)))).
  { simpl. rewrite applyChanges_filter by exact Hna. intros Hin.
    apply in_node_ids in Hin as (n & Hn & Hid). apply filter_In in Hn as [_ Hn].
    assert (Hr : removes_id changes (Node.id n) = true).
    { apply existsb_exists. exists (ChangeRemove x). split; [exact Hrm|].
      rewrite Hid. apply String.eqb_refl. }
    rewrite Hr in Hn. discriminate. }
  split; [reflexivity|]. split; [exact Hnx|].
  intros Hep. destruct (Hep e He) as [Hs Ht].
  destruct Hx as [Hx|Hx]; rewrite Hx in *; contradiction.
Qed.

Lemma onNodesChange_remove_leaves_dangling_witness :
  let changes := [@ChangeRemove Node.t "a"] in
  let st := mkFlowState [node_a; node_b] [edge_ab] in
  (forallb adds_nothing changes = true /\ In (ChangeRemove "a") changes
   /\ In edge_ab (edges st) /\ (Edge.source edge_ab = "a" \/ Edge.target edge_ab = "a"))
  /\ edges (onNodesChange changes st) = edges st
  /\ ~ In "a" (node_ids (nodes (onNodesChange changes st)))
  /\ ~ endpoints_present (nodes (onNodesChange changes st)) (edges (onNodesChange changes st)).
Proof.
  intros changes st.
  assert (H1 : forallb adds_nothing changes = true) by reflexivity.
  assert (H2 : In (ChangeRemove "a") changes) by (left; reflexivity).
  assert (H3 : In edge_ab (edges st)) by (left; reflexivity).
  assert (H4 : Edge.source edge_ab = "a" \/ Edge.target edge_ab = "a") by (left; reflexivity).
  split; [exact (conj H1 (conj H2 (conj H3 H4)))|].
  exact (onNodesChange_remove_leaves_dangling changes st "a" edge_ab H1 H2 H3 H4).
Defined.

Lemma onDrop_invariants type hasInstance newId st :
  graph_invariants (nodes st) (edges st) ->
  graph_invariants (nodes (onDrop type hasInstance newId st))
                   (edges (onDrop type hasInstance newId st)).
Proof.
  intros H. unfold onDrop. destruct (String.eqb type "" || negb hasInstance); [exact H|].
  apply addNode_invariants. exact H.
Qed.

Lemma ui_steps_invariants st0 st :
  graph_invariants (nodes st0) (edges st0) ->
  clos_refl_trans FlowState ui_step st0 st ->
  graph_invariants (nodes st) (edges st).
Proof.
  intros Hinv Hr. apply clos_rt_rt1n in Hr.
  induction Hr as [st0|st0 st1 st Hs _ IH]; [exact Hinv|].
  apply IH. destruct Hs as [st0 type hi nid|st0 c Hv|st0 changes Hna].
  - apply onDrop_invariants. exact Hinv.
  - apply connect_invariants; assumption.
  - simpl. rewrite applyChanges_filter by exact Hna. apply filter_edges_invariants. exact Hinv.
Qed.

(** Every store state the canvas reaches from the empty store by dropping
    nodes ([onDrop]), committing connections the validator accepts, and
    selecting or removing edges ([onEdgesChange]) satisfies the invariants:
    endpoints present, no self-loop, one edge per (target, targetHandle), no
    cycle. *)
Theorem canvas_edits_preserve_invariants st :
  clos_refl_trans FlowState ui_step initialState st ->
  graph_invariants (nodes st) (edges st).
Proof.
  apply ui_steps_invariants. exact initialState_invariants.
Qed.

Lemma canvas_edits_preserve_invariants_witness :
  let st1 := onDrop "text_input" true "n1" initialState in
  let st2 := onDrop "display_result" true "n2" st1 in
  let st3 := onConnect (Connection.mk "n1" "n2" None None) st2 in
  let st4 := onEdgesChange [ChangeRemove "reactflow__edge-n1-n2"] st3 in
  clos_refl_trans FlowState ui_step initialState st4
  /\ graph_invariants (nodes st4) (edges st4).
Proof.
  intros st1 st2 st3 st4.
  assert (H : clos_refl_trans FlowState ui_step initialState st4).
  { apply rt_trans with st3; [apply rt_trans with st2; [apply rt_trans with st1|]|].
    - apply rt_step. apply ui_drop.
    - apply rt_step. apply ui_drop.
    - apply rt_step. apply ui_connect. exists 5. vm_compute. reflexivity.
    - apply rt_step. apply ui_edges_change. reflexivity. }
  split; [exact H|]. exact (canvas_edits_preserve_invariants st4 H).
Defined.

(** ** Text Input: sanitizing and the length limit *)

Lemma string_app_assoc (a b c : string) : ((a ++ b) ++ c)%string = (a ++ (b ++ c))%string.
Proof. induction a as [|x a IH]; simpl; [reflexivity|]. rewrite IH. reflexivity. Qed.

Lemma skip_suffix n s : exists pre, s = (pre ++ skip n s)%string.
Proof.
  revert s. induction n as [|n IH]; intros s; [exists ""; reflexivity|].
  destruct s as [|c s']; [exists ""; reflexivity|].
  destruct (IH s') as (pre & Hp). exists (String c pre). simpl. rewrite <- Hp. reflexivity.
Qed.

Lemma find_ci_suffix p s i :
  find_ci p s = Some i -> exists pre t, s = (pre ++ t)%string /\ prefix_ci p t = true.
Proof.
  revert i. induction s as [|c s' IH]; intros i H; simpl in H.
  - destruct (prefix_ci p "") eqn:Hp; [|discriminate]. exists "", "". auto.
  - destruct (prefix_ci p (String c s')) eqn:Hp.
    + exists "", (String c s'). auto.
    + destruct (find_ci p s') as [j|] eqn:Hf; [|discriminate].
      destruct (IH j eq_refl) as (pre & t & -> & Ht).
      exists (String c pre), t. auto.
Qed.

(** [lower] fixes every character outside [a-z]. *)
Lemma lower_eq_not_lower b c :
  lower b = c -> nat_of_ascii c < 97 \/ 122 < nat_of_ascii c -> b = c.
Proof.
  unfold lower. destruct ((Nat.leb 65 (nat_of_ascii b)) && (Nat.leb (nat_of_ascii b) 90)) eqn:E;
    [|auto].
  intros <- Hc. apply andb_true_iff in E as [E1 E2].
  apply Nat.leb_le in E1. apply Nat.leb_le in E2.
  rewrite nat_ascii_embedding in Hc by lia. lia.
Qed.

Lemma prefix_ci_index_gt p s :
  prefix_ci p s = true -> index_of_gt p <> None -> index_of_gt s <> None.
Proof.
  revert s. induction p as [|a p IH]; intros s Hp Hg; [simpl in Hg; congruence|].
  destruct s as [|b s']; [discriminate|]. simpl in Hp |- *.
  apply andb_true_iff in Hp as [Hab Hp]. apply Ascii.eqb_eq in Hab.
  simpl in Hg. destruct (Ascii.eqb a ">") eqn:Ea.
  - apply Ascii.eqb_eq in Ea. subst a.
    assert (Hb : b = ">"%char) by (apply lower_eq_not_lower; [exact Ea|left; apply Nat.ltb_lt; reflexivity]).
    subst b. simpl. discriminate.
  - destruct (Ascii.eqb b ">"); [discriminate|].
    destruct (index_of_gt p) eqn:Ep; [|simpl in Hg; congruence].
    specialize (IH s' Hp ltac:(discriminate)).
    destruct (index_of_gt s'); [discriminate|congruence].
Qed.

(** A ["</script>"] (up to case) starts a match of [/<[^>]*>/]. *)
Lemma close_script_tag t : prefix_ci "</script>" t = true -> tag_match t <> None.
Proof.
  intros H. destruct t as [|b t']; [discriminate|].
  change (prefix_ci "</script>" (String b t'))
    with (Ascii.eqb "<" (lower b) && prefix_ci "/script>" t') in H.
  apply andb_true_iff in H as [Hb Ht].
  apply Ascii.eqb_eq in Hb.
  assert (Hb' : b = "<"%char) by (apply lower_eq_not_lower; [symmetry; exact Hb|left; apply Nat.ltb_lt; reflexivity]).
  subst b. change (tag_match (String "<" t')) with (option_map (fun i => i + 2) (index_of_gt t')).
  pose proof (prefix_ci_index_gt _ _ Ht ltac:(discriminate)) as Hg.
  destruct (index_of_gt t'); [discriminate|congruence].
Qed.

Lemma tag_free_no_script o :
  tag_free o -> forall pre suf, o = (pre ++ suf)%string -> script_match suf = None.
Proof.
  intros Htf pre suf Ho. unfold script_match.
  destruct (prefix_ci "<script" suf); [|reflexivity].
  destruct (match skip 7 suf with EmptyString => true | String c _ => negb (is_word_char c) end);
    [|reflexivity].
  destruct (find_ci "</script>" (skip 7 suf)) as [i|] eqn:Hf; [|reflexivity].
  exfalso. destruct (find_ci_suffix _ _ _ Hf) as (pre2 & t & Hs & Hp).
  destruct (skip_suffix 7 suf) as (pre1 & Hsuf).
  apply (close_script_tag t Hp). apply (Htf (pre ++ (pre1 ++ pre2))%string t).
  rewrite Ho, Hsuf, Hs, !string_app_assoc. reflexivity.
Qed.

Lemma replace_global_id m fuel s :
  (forall pre suf, s = (pre ++ suf)%string -> m suf = None) -> replace_global m fuel s = s.
Proof.
  revert s. induction fuel as [|fuel IH]; intros s Hm; [reflexivity|].
  destruct s as [|c s']; [reflexivity|]. cbn [replace_global].
  rewrite (Hm "" (String c s') eq_refl). f_equal. apply IH.
  intros pre suf ->. apply (Hm (String c pre) suf). reflexivity.
Qed.

Lemma sanitize_id raw : tag_free raw -> sanitize raw = raw.
Proof.
  intros Htf. unfold sanitize, replace_all.
  rewrite (replace_global_id script_match) by (apply tag_free_no_script; exact Htf).
  apply replace_global_id. exact Htf.
Qed.

(** Text in which no ["<"] is followed by a [">"] passes the Text Input
    sanitizer unchanged. *)
Theorem sanitize_keeps_tag_free_text raw : tag_free raw -> sanitize raw = raw.
Proof. exact (sanitize_id raw). Qed.

Lemma sanitize_keeps_tag_free_text_witness :
  tag_free "a > b and c < d" /\ sanitize "a > b and c < d" = "a > b and c < d".
Proof.
  assert (H : tag_free "a > b and c < d").
  { repeat (apply tag_free_cons; [|intros Hc; vm_compute in Hc |- *; first [discriminate|reflexivity]]).
    apply tag_free_empty. }
  split; [exact H|]. exact (sanitize_keeps_tag_free_text _ H).
Defined.

Lemma replace_global_length m fuel s :
  String.length (replace_global m fuel s) <= String.length s.
Proof.
  revert s. induction fuel as [|fuel IH]; intros s; [reflexivity|].
  destruct s as [|c s']; [reflexivity|]. cbn [replace_global].
  destruct (m (String c s')) as [[|n]|].
  - simpl. specialize (IH s'). lia.
  - specialize (IH (skip (S n) (String c s'))). pose proof (skip_length (S n) (String c s')). lia.
  - simpl. specialize (IH s'). lia.
Qed.

(** Sanitizing is idempotent and never lengthens the text. *)
Theorem sanitize_idempotent raw :
  sanitize (sanitize raw) = sanitize raw
  /\ String.length (sanitize raw) <= String.length raw.
Proof.
  split.
  - apply sanitize_id. apply sanitize_tag_free.
  - unfold sanitize, replace_all.
    etransitivity; [apply replace_global_length|]. apply replace_global_length.
Qed.

(** With a non-zero [max_length] [m], a change event commits only a value of
    at most [m] characters, and shows the length error exactly when the
    sanitized text has [m] characters or more; a negative [m] blocks every
    commit. *)
Theorem textInput_max_length_bound m raw :
  m <> 0%Z ->
  (forall v, snd (handleChange (Some m) raw) = Some v -> (Z.of_nat (String.length v) <= m)%Z)
  /\ (fst (handleChange (Some m) raw) = true <-> (m <= Z.of_nat (String.length (sanitize raw)))%Z)
  /\ ((m < 0)%Z -> snd (handleChange (Some m) raw) = None).
Proof.
  intros Hm. unfold handleChange.
  assert (E : Z.eqb m 0 = false) by (apply Z.eqb_neq; exact Hm). rewrite E. simpl.
  pose proof (Zle_0_nat (String.length (sanitize raw))) as H0.
  destruct (Z.geb (Z.of_nat (String.length (sanitize raw))) m) eqn:Hge.
  - apply Z.geb_le in Hge.
    destruct (Z.gtb (Z.of_nat (String.length (sanitize raw))) m) eqn:Hgt; simpl.
    + split; [intros v H; discriminate|]. split; [tauto|]. auto.
    + rewrite Z.gtb_ltb in Hgt. apply Z.ltb_ge in Hgt.
      split; [intros v H; injection H as <-; exact Hgt|]. split; [tauto|]. intros Hlt. lia.
  - rewrite Z.geb_leb in Hge. apply Z.leb_gt in Hge. simpl.
    split; [intros v H; injection H as <-; lia|]. split; [split; [discriminate|lia]|].
    intros Hlt. lia.
Qed.

Lemma textInput_max_length_bound_witness :
  (5 <> 0)%Z
  /\ (forall v, snd (handleChange (Some 5%Z) "<b>hello</b> world") = Some v ->
                (Z.of_nat (String.length v) <= 5)%Z)
  /\ (fst (handleChange (Some 5%Z) "<b>hello</b> world") = true
      <-> (5 <= Z.of_nat (String.length (sanitize "<b>hello</b> world")))%Z)
  /\ ((5 < 0)%Z -> snd (handleChange (Some 5%Z) "<b>hello</b> world") = None).
Proof.
  assert (H : (5 <> 0)%Z) by discriminate.
  split; [exact H|]. exact (textInput_max_length_bound 5 "<b>hello</b> world" H).
Defined.

(** ** Config updates (Text Join, Math Operation) *)

Lemma get_prop_absent (o : JsObject) k :
  existsb (String.eqb k) (map fst o) = false -> get_prop o k = JUndefined.
Proof.
  induction o as [|[k0 v0] o IH]; simpl; [reflexivity|].
  intros H. apply orb_false_iff in H as [H1 H2]. rewrite H1. exact (IH H2).
Qed.

Lemma get_prop_copy (cfg : JsObject) k :
  NoDup (map fst cfg) -> get_prop (spread [] cfg) k = get_prop cfg k.
Proof.
  intros Hnd. rewrite get_prop_spread by exact Hnd.
  destruct (existsb (String.eqb k) (map fst cfg)) eqn:E; [reflexivity|].
  symmetry. exact (get_prop_absent cfg k E).
Qed.

(** A node of id [id] after [updateNodeData(id, { config: c })] holds the
    config [c]. *)
Lemma updateNodeData_config id c st n' :
  In n' (nodes (updateNodeData id [("config", c)] st)) -> Node.id n' = id ->
  get_prop (Node.data n') "config" = c.
Proof.
  unfold updateNodeData; cbn [nodes]. intros Hin Hid.
  apply in_map_iff in Hin as (n & Hn & _).
  destruct (String.eqb (Node.id n) id) eqn:E.
  - subst n'. cbn [Node.data]. rewrite get_prop_spread by (repeat constructor; simpl; tauto).
    reflexivity.
  - subst n'. rewrite Hid, String.eqb_refl in E. discriminate.
Qed.

(** The other keys of a config object survive [{ ...config, key: value }]. *)
Lemma config_update_other data key v k cfg :
  get_prop data "config" = JObj cfg -> NoDup (map fst cfg) -> k <> key ->
  get_prop (set_prop (spread_value (get_prop data "config")) key v) k = config_prop data k.
Proof.
  intros Hc Hnd Hk. unfold config_prop. rewrite Hc. simpl.
  rewrite get_set_prop. apply String.eqb_neq in Hk. rewrite Hk.
  exact (get_prop_copy cfg k Hnd).
Qed.

(** [applyValue(value)] sets the local separator to [value]; every node of
    the id then reads [value] back as its separator, keeps the other keys of
    a config object without duplicate keys, and the edges stay as they
    were. *)
Theorem textJoin_applyValue_roundtrip id data value st :
  fst (applyValue id data value st) = value
  /\ edges (snd (applyValue id data value st)) = edges st
  /\ forall n', In n' (nodes (snd (applyValue id data value st))) -> Node.id n' = id ->
       currentSeparator (Node.data n') = value
       /\ (forall cfg k, get_prop data "config" = JObj cfg -> NoDup (map fst cfg) ->
             k <> "separator" -> config_prop (Node.data n') k = config_prop data k).
Proof.
  split; [reflexivity|]. split; [reflexivity|].
  intros n' Hin Hid. simpl in Hin.
  pose proof (updateNodeData_config _ _ _ _ Hin Hid) as Hc.
  split.
  - unfold currentSeparator. rewrite Hc, get_set_prop, String.eqb_refl. reflexivity.
  - intros cfg k Hcfg Hnd Hk. unfold config_prop at 1. rewrite Hc.
    exact (config_update_other data "separator" (JStr value) k cfg Hcfg Hnd Hk).
Qed.

(** [handleOperationChange(value)]: every node of the id then shows the
    operation [value], or ["add"] when [value] is empty, and keeps the
    other keys of a config object without duplicate keys. *)
Theorem mathOperation_change_roundtrip id data value st :
  edges (handleOperationChange id data value st) = edges st
  /\ forall n', In n' (nodes (handleOperationChange id data value st)) -> Node.id n' = id ->
       currentOperation (Node.data n') = (if String.eqb value "" then JStr "add" else JStr value)
       /\ (forall cfg k, get_prop data "config" = JObj cfg -> NoDup (map fst cfg) ->
             k <> "operation" -> config_prop (Node.data n') k = config_prop data k).
Proof.
  split; [reflexivity|].
  intros n' Hin Hid.
  pose proof (updateNodeData_config _ _ _ _ Hin Hid) as Hc.
  split.
  - unfold currentOperation, config_prop. rewrite Hc, get_set_prop, String.eqb_refl.
    simpl. destruct (String.eqb value ""); reflexivity.
  - intros cfg k Hcfg Hnd Hk. unfold config_prop at 1. rewrite Hc.
    exact (config_update_other data "operation" (JStr value) k cfg Hcfg Hnd Hk).
Qed.

(** ** Separator preview *)

Lemma formatSeparatorForPreview_cases sep :
  (formatSeparatorForPreview sep = sep /\ 2 <= List.length sep)
  \/ (List.length (formatSeparatorForPreview sep) = 1 /\ List.length sep <= 1).
Proof.
  unfold formatSeparatorForPreview.
  destruct (list_eq_dec N.eq_dec sep [10%N]) as [->|H1]; [right; simpl; lia|].
  destruct (list_eq_dec N.eq_dec sep [9%N]) as [->|H2]; [right; simpl; lia|].
  destruct (list_eq_dec N.eq_dec sep []) as [->|H3]; [right; simpl; lia|].
  destruct sep as [|a [|b sep]]; [congruence| |left; simpl; split; [reflexivity|lia]].
  right. simpl. lia.
Qed.

(** The preview is at most 29 units long: [A], the shown separator and [B]
    when the separator has at most 26 units, else [A], the first 27 units
    of the separator and an ellipsis. *)
Theorem buildPreview_shape sep :
  List.length (buildPreview sep) <= 29
  /\ (List.length sep <= 26 -> buildPreview sep = (65%N :: formatSeparatorForPreview sep ++ [66%N])%list)
  /\ (26 < List.length sep -> buildPreview sep = (65%N :: firstn 27 sep ++ [8230%N])%list).
Proof.
  unfold buildPreview, PREVIEW_MAX_LENGTH.
  destruct (formatSeparatorForPreview_cases sep) as [[Hf Hl]|[Hf Hl]].
  - rewrite Hf.
    assert (Hlen : List.length (65%N :: sep ++ [66%N]) = List.length sep + 2)
      by (simpl; rewrite length_app; simpl; lia).
    rewrite Hlen.
    destruct (Nat.ltb 28 (List.length sep + 2)) eqn:E.
    + apply Nat.ltb_lt in E. split; [|split].
      * rewrite length_app, length_firstn, Hlen, Nat.min_l by lia. simpl. lia.
      * intros. lia.
      * intros _. change (firstn 28 (65%N :: (sep ++ [66%N]))) with (65%N :: firstn 27 (sep ++ [66%N]))%list. rewrite firstn_app.
        replace (27 - List.length sep) with 0 by lia. rewrite firstn_O, app_nil_r. reflexivity.
    + apply Nat.ltb_ge in E. split; [|split].
      * rewrite Hlen. lia.
      * intros _. reflexivity.
      * intros. lia.
  - assert (Hlen : List.length (65%N :: formatSeparatorForPreview sep ++ [66%N]) = 3)
      by (simpl; rewrite length_app, Hf; reflexivity).
    rewrite Hlen. simpl Nat.ltb. cbv iota. split; [|split].
    + simpl. rewrite length_app, Hf. simpl. lia.
    + intros _. reflexivity.
    + intros. lia.
Qed.

(** ** Text Output *)

Lemma string_length_app (a b : string) :
  String.length (a ++ b) = String.length a + String.length b.
Proof. induction a as [|c a IH]; simpl; [reflexivity|]. rewrite IH. reflexivity. Qed.

Lemma substring_0_length n s : String.length (String.substring 0 n s) <= n.
Proof.
  revert s. induction n as [|n IH]; intros s; destruct s as [|c s]; simpl; try lia.
  specialize (IH s). lia.
Qed.

Lemma truncate_bound m ft :
  (0 < m)%Z ->
  let r := if negb (Z.eqb m 0) && Z.gtb (Z.of_nat (String.length ft)) m
           then (String.substring 0 (Z.to_nat m) ft ++ "...", true)
           else (ft, false) in
  String.length (fst r) <= Z.to_nat m + 3
  /\ (snd r = true <-> Z.to_nat m < String.length ft)
  /\ (snd r = true -> fst r = String.substring 0 (Z.to_nat m) ft ++ "...").
Proof.
  intros Hm r. subst r.
  assert (Hm0 : Z.eqb m 0 = false) by (apply Z.eqb_neq; lia).
  rewrite Hm0. simpl negb. cbv iota.
  destruct (Z.gtb (Z.of_nat (String.length ft)) m) eqn:E; simpl.
  - rewrite Z.gtb_ltb, Z.ltb_lt in E.
    rewrite string_length_app. pose proof (substring_0_length (Z.to_nat m) ft).
    simpl. split; [lia|]. split; [split; intros; [lia|reflexivity]|]. reflexivity.
  - rewrite Z.gtb_ltb, Z.ltb_ge in E.
    split; [lia|]. split; [split; [discriminate|lia]|]. discriminate.
Qed.

(** With a positive [max_display_length] [m], the displayed text has at most
    [m + 3] characters; it is truncated exactly when the value is neither
    [null] nor [undefined] and its formatted text is longer than [m], and
    then it is the first [m] characters and ["..."]. *)
Theorem formatValue_truncation json_stringify m data :
  (0 < m)%Z ->
  let r := formatValue json_stringify (Some m) data in
  let ft := formatText json_stringify (config_prop data "format") (get_prop data "value") in
  String.length (fst r) <= Z.to_nat m + 3
  /\ (snd r = true <->
        get_prop data "value" <> JNull /\ get_prop data "value" <> JUndefined
        /\ Z.to_nat m < String.length ft)
  /\ (snd r = true -> fst r = String.substring 0 (Z.to_nat m) ft ++ "...").
Proof.
  intros Hm r ft. subst r ft. unfold formatValue.
  destruct (get_prop data "value") eqn:Hv;
    try (simpl; split; [lia|split; [split; [discriminate|intros (? & ? & _); congruence]|discriminate]]);
    (destruct (truncate_bound m (formatText json_stringify (config_prop data "format") (get_prop data "value")) Hm)
       as (H1 & H2 & H3); rewrite Hv in H1, H2, H3;
     split; [exact H1|]; split; [|exact H3];
     rewrite H2; split; [intros H; split; [discriminate|split; [discriminate|exact H]]|tauto]).
Qed.

(** A negative [max_display_length] shows only ["..."] (marked truncated)
    for every value that is neither [null] nor [undefined]. *)
Theorem formatValue_negative_max json_stringify m data :
  (m < 0)%Z -> get_prop data "value" <> JNull -> get_prop data "value" <> JUndefined ->
  formatValue json_stringify (Some m) data = ("...", true).
Proof.
  intros Hm Hn Hu. unfold formatValue.
  assert (Hm0 : Z.eqb m 0 = false) by (apply Z.eqb_neq; lia).
  assert (Hto : Z.to_nat m = 0) by (destruct m; simpl; lia).
  destruct (get_prop data "value"); try congruence;
    (rewrite Hm0, Hto; simpl negb; cbv iota;
     match goal with |- context [Z.gtb ?a ?b] =>
       assert (Hg : Z.gtb a b = true) by (rewrite Z.gtb_ltb, Z.ltb_lt; lia); rewrite Hg
     end;
     destruct (formatText _ _ _); reflexivity).
Qed.

Lemma formatValue_negative_max_witness :
  ((-2 < 0)%Z /\ get_prop [("value", JNum 42)] "value" <> JNull
   /\ get_prop [("value", JNum 42)] "value" <> JUndefined)
  /\ formatValue (fun _ => "") (Some (-2)%Z) [("value", JNum 42)] = ("...", true).
Proof.
  assert (H1 : (-2 < 0)%Z) by lia.
  assert (H2 : get_prop [("value", JNum 42)] "value" <> JNull) by discriminate.
  assert (H3 : get_prop [("value", JNum 42)] "value" <> JUndefined) by discriminate.
  split; [split; [exact H1|split; [exact H2|exact H3]]|].
  exact (formatValue_negative_max (fun _ => "") (-2)%Z [("value", JNum 42)] H1 H2 H3).
Defined.

Lemma formatValue_truncation_witness :
  (0 < 3)%Z
  /\ String.length (fst (formatValue (fun _ => "") (Some 3%Z) [("value", JStr "hello")])) <= 6.
Proof.
  assert (H : (0 < 3)%Z) by lia. split; [exact H|].
  exact (proj1 (formatValue_truncation (fun _ => "") 3%Z [("value", JStr "hello")] H)).
Defined.

(** ** Number Input *)

Lemma is_str_eq v lit : is_str v lit = true -> v = JStr lit.
Proof.
  destruct v; simpl; try discriminate. intros H. apply String.eqb_eq in H. subst. reflexivity.
Qed.

(** Whatever [parseInt], [parseFloat] and [Number] return, a committed
    number comes with no error, lies within the configured [min_value] and
    [max_value] when they are numbers, and is an integer in ["int"] mode. *)
Theorem numberInput_commit_in_bounds parseInt10 parseFloat stringToNumber data raw q :
  snd (number_handleChange parseInt10 parseFloat stringToNumber data raw) = CommitNumber q ->
  fst (number_handleChange parseInt10 parseFloat stringToNumber data raw) = None
  /\ (forall lo, to_number stringToNumber (config_prop data "min_value") = Some lo -> (lo <= q)%Q)
  /\ (forall hi, to_number stringToNumber (config_prop data "max_value") = Some hi -> (q <= hi)%Q)
  /\ (is_str (config_prop data "number_type") "int" = true -> is_integer q = true).
Proof.
  unfold number_handleChange. cbv zeta.
  destruct (String.eqb raw "") eqn:Er; [discriminate|].
  match goal with |- context [match ?p with inl _ => _ | inr _ => _ end] =>
    destruct p as [pv|msg] eqn:Hp end; [|discriminate].
  destruct (negb (match config_prop data "min_value" with JUndefined => true | _ => false end)
            && js_lt (Some pv) (to_number stringToNumber (config_prop data "min_value"))) eqn:Emin;
    [discriminate|].
  destruct (negb (match config_prop data "max_value" with JUndefined => true | _ => false end)
            && js_lt (to_number stringToNumber (config_prop data "max_value")) (Some pv)) eqn:Emax;
    [discriminate|].
  simpl. intros H. injection H as <-.
  split; [reflexivity|]. split; [|split].
  - intros lo Hlo. destruct (config_prop data "min_value") eqn:Hm;
      try discriminate Hlo;
      rewrite Hlo in Emin; simpl in Emin;
      destruct (Qle_bool lo pv) eqn:Hq; try discriminate Emin;
      apply Qle_bool_iff; exact Hq.
  - intros hi Hhi. destruct (config_prop data "max_value") eqn:Hm;
      try discriminate Hhi;
      rewrite Hhi in Emax; simpl in Emax;
      destruct (Qle_bool pv hi) eqn:Hq; try discriminate Emax;
      apply Qle_bool_iff; exact Hq.
  - intros Hint. apply is_str_eq in Hint. rewrite Hint in Hp. simpl in Hp.
    destruct (parseInt10 raw) as [p|]; [|discriminate].
    destruct (is_integer p) eqn:Hi; [|discriminate]. injection Hp as <-. exact Hi.
Qed.

Lemma numberInput_commit_in_bounds_witness :
  let data := [("config", JObj [("number_type", JStr "int"); ("min_value", JNum 1);
                                 ("max_value", JNum 5)])] in
  snd (number_handleChange (fun _ => Some (3#1)%Q) (fun _ => Some (3#1)%Q) (fun _ => None) data "3")
    = CommitNumber (3#1)
  /\ (forall lo, to_number (fun _ => None) (config_prop data "min_value") = Some lo -> (lo <= 3#1)%Q).
Proof.
  intros data.
  assert (H : snd (number_handleChange (fun _ => Some (3#1)%Q) (fun _ => Some (3#1)%Q)
                     (fun _ => None) data "3") = CommitNumber (3#1)) by (vm_compute; reflexivity).
  split; [exact H|].
  exact (proj1 (proj2 (numberInput_commit_in_bounds _ _ _ data "3" (3#1) H))).
Defined.

(** A change event clears the value exactly on an empty input, and sets an
    error exactly when it keeps the old value. *)
Theorem numberInput_outcomes parseInt10 parseFloat stringToNumber data raw :
  let r := number_handleChange parseInt10 parseFloat stringToNumber data raw in
  (snd r = CommitNull <-> raw = "")
  /\ (fst r = None <-> snd r <> KeepValue).
Proof.
  intros r. subst r. unfold number_handleChange. cbv zeta.
  destruct (String.eqb raw "") eqn:Er.
  - apply String.eqb_eq in Er. simpl. split; [tauto|]. split; [discriminate|tauto].
  - assert (Hne : raw <> "") by (intros ->; discriminate).
    match goal with |- context [match ?p with inl _ => _ | inr _ => _ end] =>
      destruct p as [pv|msg] end.
    + repeat match goal with |- context [if ?b then _ else _] => destruct b end;
        simpl; (split; [split; [discriminate|tauto]|split; [discriminate|tauto]])
        || (split; [split; [discriminate|tauto]|split; [discriminate|]]).
      all: try (intros _; reflexivity).
    + simpl. split; [split; [discriminate|tauto]|split; [discriminate|tauto]].
Qed.
